(** * Image acquisition and upload pipeline of the Analyse page
    (frontend/app/analyse/page.tsx).

    JavaScript strings are modelled as [String.string]: lists of 8-bit
    code units (Latin-1), which covers the ASCII data URIs and the
    binary strings that [atob] returns.  Bytes and code units are [N]. *)

From Stdlib Require Import String Ascii List Arith NArith Lia Bool.
Import ListNotations.
Open Scope N_scope.

(* ------------------------------------------------------------------ *)
(** ** JavaScript errors and throwing computations *)

Inductive JsError :=
| InvalidCharacterError            (* DOMException thrown by atob *)
| TypeError (msg : string)          (* e.g. reading [1] of null *)
| NetworkError (cause : string)     (* fetch rejection *)
| SyntaxError (msg : string).       (* response.json() parse failure *)

Inductive Throws (A : Type) :=
| Ok (a : A)
| Throw (e : JsError).
Arguments Ok {A} a.
Arguments Throw {A} e.

(* ------------------------------------------------------------------ *)
(** ** Platform string functions *)

Definition code (c : ascii) : N := N_of_ascii c.

(** [s.split(",")] for a one-character separator. *)
Fixpoint js_split (sep : ascii) (s : string) : list string :=
  match s with
  | EmptyString => [EmptyString]
  | String c r =>
      match js_split sep r with
      | [] => [String c EmptyString] (* unreachable *)
      | p :: ps => if Ascii.eqb c sep then EmptyString :: p :: ps
                   else String c p :: ps
      end
  end.

(** [parts[i]]: [None] is [undefined]. *)
Definition js_index (parts : list string) (i : nat) : option string :=
  nth_error parts i.

(** [String(x)], as [atob] converts its argument. *)
Definition js_to_string (v : option string) : string :=
  match v with Some s => s | None => "undefined"%string end.

(** ECMAScript line terminators in the 8-bit range: LF and CR
    ([.] of a regular expression does not match them). *)
Definition is_line_terminator (c : ascii) : bool :=
  (code c =? 10) || (code c =? 13).

(** Lazy tail [(.*?);] of [/:(.*?);/]: the text up to the first [;],
    failing if a line terminator comes first. *)
Fixpoint lazy_upto_semicolon (s : string) : option string :=
  match s with
  | EmptyString => None
  | String c r =>
      if Ascii.eqb c ";"%char then Some EmptyString
      else if is_line_terminator c then None
      else option_map (String c) (lazy_upto_semicolon r)
  end.

(** [s.match(/:(.*?);/)] and its group 1: the leftmost [:] from which
    the lazy group succeeds. *)
Fixpoint match_colon_semicolon (s : string) : option string :=
  match s with
  | EmptyString => None
  | String c r =>
      if Ascii.eqb c ":"%char then
        match lazy_upto_semicolon r with
        | Some g => Some g
        | None => match_colon_semicolon r
        end
      else match_colon_semicolon r
  end.

(* ------------------------------------------------------------------ *)
(** ** Base64 ([atob] and [btoa], HTML / WHATWG Infra forgiving-base64) *)

Definition is_ascii_whitespace (c : ascii) : bool :=
  let n := code c in
  (n =? 9) || (n =? 10) || (n =? 12) || (n =? 13) || (n =? 32).

(** Position of a code point in the base64 alphabet. *)
Definition char_sextet (c : ascii) : option N :=
  let n := code c in
  if (65 <=? n) && (n <=? 90) then Some (n - 65)
  else if (97 <=? n) && (n <=? 122) then Some (n - 71)
  else if (48 <=? n) && (n <=? 57) then Some (n + 4)
  else if n =? 43 then Some 62
  else if n =? 47 then Some 63
  else None.

Definition sextet_char (x : N) : ascii :=
  ascii_of_N
    (if x <? 26 then x + 65
     else if x <? 52 then x + 71
     else if x <? 62 then x - 4
     else if x =? 62 then 43 else 47).

(** Removes one or two trailing [=]. *)
Definition drop_padding (l : list ascii) : list ascii :=
  match rev l with
  | c1 :: c2 :: r =>
      if Ascii.eqb c1 "="%char then
        (if Ascii.eqb c2 "="%char then rev r else rev (c2 :: r))
      else l
  | [c1] => if Ascii.eqb c1 "="%char then [] else l
  | [] => l
  end.

Fixpoint map_option {A B} (f : A -> option B) (l : list A) : option (list B) :=
  match l with
  | [] => Some []
  | x :: r =>
      match f x, map_option f r with
      | Some y, Some ys => Some (y :: ys)
      | _, _ => None
      end
  end.

(** Steps 5-7 of forgiving-base64 decode: every 24 bits of buffer give
    three bytes; a final 18 (12) bits drop their last 2 (4) bits and
    give two (one) bytes. *)
Fixpoint decode_sextets (l : list N) : list N :=
  match l with
  | a :: b :: c :: d :: rest =>
      let n := N.shiftl a 18 + N.shiftl b 12 + N.shiftl c 6 + d in
      N.shiftr n 16 :: N.land (N.shiftr n 8) 255 :: N.land n 255
        :: decode_sextets rest
  | [a; b; c] =>
      let n := N.shiftr (N.shiftl a 12 + N.shiftl b 6 + c) 2 in
      [N.shiftr n 8; N.land n 255]
  | [a; b] =>
      let n := N.shiftr (N.shiftl a 6 + b) 4 in [n]
  | _ => []
  end.

Definition forgiving_base64_decode (data : list ascii) : option (list N) :=
  let d1 := filter (fun c => negb (is_ascii_whitespace c)) data in
  let d2 := if (N.of_nat (length d1) mod 4 =? 0) then drop_padding d1 else d1 in
  if N.of_nat (length d2) mod 4 =? 1 then None
  else option_map decode_sextets (map_option char_sextet d2).

Fixpoint forgiving_base64_encode (l : list N) : list ascii :=
  match l with
  | a :: b :: c :: rest =>
      let n := N.shiftl a 16 + N.shiftl b 8 + c in
      sextet_char (N.shiftr n 18) :: sextet_char (N.land (N.shiftr n 12) 63)
        :: sextet_char (N.land (N.shiftr n 6) 63) :: sextet_char (N.land n 63)
        :: forgiving_base64_encode rest
  | [a; b] =>
      let n := N.shiftl a 16 + N.shiftl b 8 in
      [sextet_char (N.shiftr n 18); sextet_char (N.land (N.shiftr n 12) 63);
       sextet_char (N.land (N.shiftr n 6) 63); "="%char]
  | [a] =>
      let n := N.shiftl a 16 in
      [sextet_char (N.shiftr n 18); sextet_char (N.land (N.shiftr n 12) 63);
       "="%char; "="%char]
  | [] => []
  end.

Definition bytes_of_string (s : string) : list N :=
  map code (list_ascii_of_string s).

Definition string_of_bytes (l : list N) : string :=
  string_of_list_ascii (map ascii_of_N l).

(** [atob(data)]: [None] is the thrown InvalidCharacterError. *)
Definition atob (data : string) : option string :=
  option_map string_of_bytes (forgiving_base64_decode (list_ascii_of_string data)).

(** [btoa(data)] (never throws here: every code unit is below 256). *)
Definition btoa (data : string) : string :=
  string_of_list_ascii (forgiving_base64_encode (bytes_of_string data)).

(* ------------------------------------------------------------------ *)
(** ** Blobs, Files and FormData *)

(** A Blob; [file_name] is [Some n] for a File (name [n]). *)
Record Blob := {
  blob_bytes : list N;
  blob_type : string;
  file_name : option string
}.

Fixpoint all_printable (s : string) : bool :=
  match s with
  | EmptyString => true
  | String c r => (32 <=? code c) && (code c <=? 126) && all_printable r
  end.

Definition ascii_lower (c : ascii) : ascii :=
  if (65 <=? code c) && (code c <=? 90) then ascii_of_N (code c + 32) else c.

Fixpoint string_map (f : ascii -> ascii) (s : string) : string :=
  match s with
  | EmptyString => EmptyString
  | String c r => String (f c) (string_map f r)
  end.

(** The [type] option of the Blob constructor: empty if it holds a code
    unit outside U+0020..U+007E, else ASCII-lowercased. *)
Definition blob_type_of_option (t : string) : string :=
  if all_printable t then string_map ascii_lower t else EmptyString.

(** [new Blob([ab], { type })]. *)
Definition new_Blob (ab : list N) (t : string) : Blob :=
  {| blob_bytes := ab; blob_type := blob_type_of_option t; file_name := None |}.

(** [new Uint8Array(ab)] filled by [ia[i] = byteString.charCodeAt(i)]:
    each store is a ToUint8 conversion. *)
Definition uint8_fill (byteString : string) : list N :=
  map (fun cu => cu mod 256) (bytes_of_string byteString).

Inductive FormEntry :=
| FileEntry (name : string) (bytes : list N) (type : string) (filename : string)
| StringEntry (name : string) (value : string).

(** [formData.append(name, blob, filename?)]: a Blob that is not a File
    becomes a File named ["blob"]; a given filename overrides the name. *)
Definition append_blob (fd : list FormEntry) (name : string) (b : Blob)
    (filename : option string) : list FormEntry :=
  let fname := match filename with
               | Some f => f
               | None => match file_name b with Some n => n | None => "blob"%string end
               end in
  fd ++ [FileEntry name (blob_bytes b) (blob_type b) fname].

Definition append_string (fd : list FormEntry) (name value : string) : list FormEntry :=
  fd ++ [StringEntry name value].

(* ------------------------------------------------------------------ *)
(** ** [base64ToBlob] (page.tsx, lines 12-23) *)

Definition base64ToBlob (base64 : string) : Throws Blob :=
  let parts := js_split ","%char base64 in
  match atob (js_to_string (js_index parts 1)) with
  | None => Throw InvalidCharacterError
  | Some byteString =>
      match option_map match_colon_semicolon (js_index parts 0) with
      | Some (Some mimeString) => Ok (new_Blob (uint8_fill byteString) mimeString)
      | _ => Throw (TypeError "Cannot read properties of null (reading '1')")
      end
  end.

(** The [mimeString] that [base64ToBlob] extracts. *)
Definition extracted_mime (base64 : string) : option string :=
  match js_index (js_split ","%char base64) 0 with
  | Some p0 => match_colon_semicolon p0
  | None => None
  end.

(** The text [atob] decodes: [parts[1]]. *)
Definition base64_remainder (base64 : string) : string :=
  js_to_string (js_index (js_split ","%char base64) 1).

(** Decomposition of [forgiving_base64_encode] used in the proofs: the
    sextets it writes, and the number of [=] it appends. *)
Fixpoint enc_sextets (l : list N) : list N :=
  match l with
  | a :: b :: c :: rest =>
      let n := N.shiftl a 16 + N.shiftl b 8 + c in
      N.shiftr n 18 :: N.land (N.shiftr n 12) 63 :: N.land (N.shiftr n 6) 63
        :: N.land n 63 :: enc_sextets rest
  | [a; b] =>
      let n := N.shiftl a 16 + N.shiftl b 8 in
      [N.shiftr n 18; N.land (N.shiftr n 12) 63; N.land (N.shiftr n 6) 63]
  | [a] =>
      let n := N.shiftl a 16 in [N.shiftr n 18; N.land (N.shiftr n 12) 63]
  | [] => []
  end.

Fixpoint pad_count (l : list N) : nat :=
  match l with
  | _ :: _ :: _ :: rest => pad_count rest
  | [_; _] => 1
  | [_] => 2
  | [] => 0
  end.

Definition all_bytes (l : list N) : Prop := Forall (fun x => x < 256) l.

(** [s] does not contain the code unit [c]. *)
Fixpoint no_char (c : ascii) (s : string) : bool :=
  match s with
  | EmptyString => true
  | String d r => negb (Ascii.eqb d c) && no_char c r
  end.

(** A MIME text that can stand between [data:] and [;base64,]: no comma,
    no semicolon and no line terminator. *)
Definition mime_text_ok (mime : string) : bool :=
  no_char ","%char mime && no_char ";"%char mime
  && no_char (ascii_of_N 10) mime && no_char (ascii_of_N 13) mime.

(** The data URI [data:<mime>;base64,<b64>]. *)
Definition data_uri (mime b64 : string) : string :=
  ("data:" ++ mime ++ ";base64," ++ b64)%string.

(* ------------------------------------------------------------------ *)
(** ** Console, network and the async function monad *)

(** Values [response.json()] can return. *)
#[local] Set Warnings "-register-all".
Inductive Json :=
| JNull
| JBool (b : bool)
| JNum (n : N)
| JStr (s : string)
| JArr (l : list Json)
| JObj (l : list (string * Json)).

Inductive LogArg :=
| AStr (s : string)
| ANum (n : N)
| AErr (e : JsError)
| AJson (j : Json).

(** Observable effects: requests sent and console output. *)
Inductive Event :=
| EvPost (url : string) (body : list FormEntry)
| EvConsoleError (args : list LogArg)
| EvConsoleLog (args : list LogArg)
| EvUnhandledRejection (e : JsError).

(** A fetch [Response]; [body_json] is [JSON.parse] of [body_text]
    ([None]: it throws a SyntaxError). *)
Record Response := {
  status : N;
  body_text : string;
  body_json : option Json
}.

Definition response_ok (r : Response) : bool := (200 <=? status r) && (status r <=? 299).

Inductive FetchOutcome :=
| FetchRejects (e : JsError)       (* DNS failure, reset, timeout, ... *)
| FetchResolves (r : Response).

(** What the browser supplies to one upload. *)
Record UploadEnv := {
  window_origin : option string;   (* [None]: [typeof window === "undefined"] *)
  fetch_outcome : FetchOutcome
}.

(** An async function body: appends events, then returns or throws. *)
Definition M (A : Type) : Type := list Event -> list Event * Throws A.

Definition ret {A} (a : A) : M A := fun t => (t, Ok a).
Definition bind {A B} (m : M A) (k : A -> M B) : M B :=
  fun t => match m t with
           | (t', Ok a) => k a t'
           | (t', Throw e) => (t', Throw e)
           end.
Definition raise {A} (e : JsError) : M A := fun t => (t, Throw e).
Definition emit (ev : Event) : M unit := fun t => (t ++ [ev], Ok tt).
Definition lift {A} (r : Throws A) : M A :=
  match r with Ok a => ret a | Throw e => raise e end.
Definition try_catch {A} (m : M A) (h : JsError -> M A) : M A :=
  fun t => match m t with
           | (t', Throw e) => h e t'
           | r => r
           end.

Notation "x <- m ;; k" := (bind m (fun x => k)) (at level 61, m at next level, right associativity).
Notation "m ;;; k" := (bind m (fun _ => k)) (at level 61, right associativity).

(** [await fetch(url, { method: "POST", body })]. *)
Definition fetch (env : UploadEnv) (url : string) (body : list FormEntry) : M Response :=
  emit (EvPost url body) ;;;
  match fetch_outcome env with
  | FetchRejects e => raise e
  | FetchResolves r => ret r
  end.

Definition response_text (r : Response) : M string := ret (body_text r).

Definition response_json (r : Response) : M Json :=
  match body_json r with
  | Some j => ret j
  | None => raise (SyntaxError "Unexpected token")
  end.

(* ------------------------------------------------------------------ *)
(** ** [handleImageUpload] (page.tsx, lines 178-208) *)

(** The [image: Blob | string] argument. *)
Inductive Image :=
| ImgString (s : string)
| ImgBlob (b : Blob).

Definition build_form_data (image : Image) : M (list FormEntry) :=
  match image with
  | ImgString s =>
      if String.prefix "data:" s then
        blob <- lift (base64ToBlob s) ;;
        ret (append_blob [] "image" blob (Some "captured.jpg"%string))
      else ret (append_string [] "imageUrl" s)
  | ImgBlob b => ret (append_blob [] "image" b None)
  end.

Definition api_endpoint (env : UploadEnv) : string :=
  match window_origin env with
  | Some origin => (origin ++ "/api/upload")%string
  | None => "/api/upload"%string
  end.

Definition handleImageUpload (env : UploadEnv) (image : Image) : M unit :=
  formData <- build_form_data image ;;
  let apiEndpoint := api_endpoint env in
  try_catch
    (response <- fetch env apiEndpoint formData ;;
     if negb (response_ok response) then
       errorText <- response_text response ;;
       emit (EvConsoleError [AStr "Upload error"; ANum (status response); AStr errorText])
     else
       data <- response_json response ;;
       emit (EvConsoleLog [AStr "Server response:"; AJson data]))
    (fun error => emit (EvConsoleError [AStr "Error uploading image:"; AErr error])).

(** Running the async function from an empty trace: the effects it
    performs and how its promise settles. *)
Definition run_upload (env : UploadEnv) (image : Image) : list Event * Throws unit :=
  handleImageUpload env image [].

Fixpoint count_posts (t : list Event) : nat :=
  match t with
  | [] => 0
  | EvPost _ _ :: r => S (count_posts r)
  | _ :: r => count_posts r
  end.

(* ------------------------------------------------------------------ *)
(** ** The [Analyse] page: state, capture handlers, rendering *)

(** Decimal text of a URL counter. *)
Fixpoint digits_of (fuel n : nat) (acc : string) : string :=
  match fuel with
  | O => acc
  | S f =>
      let acc' := String (ascii_of_nat (48 + n mod 10)) acc in
      if (n <? 10)%nat then acc' else digits_of f (n / 10) acc'
  end.

Definition nat_to_string (n : nat) : string := digits_of (S n) n EmptyString.

(** The page's React state ([isMobileDevice], [screenshot]), the
    document's blob URL store, and the effects seen so far.
    [mount_effect_ran] is React's record that the [[]] effect ran. *)
Record Page := {
  isMobileDevice : option bool;
  screenshot : option string;
  blob_url_store : list (string * Blob);
  url_counter : nat;
  effects : list Event;
  mount_effect_ran : bool
}.

Definition initial_page : Page :=
  {| isMobileDevice := None; screenshot := None; blob_url_store := [];
     url_counter := 0; effects := []; mount_effect_ran := false |}.

Definition setScreenshot (v : string) (p : Page) : Page :=
  {| isMobileDevice := isMobileDevice p; screenshot := Some v;
     blob_url_store := blob_url_store p; url_counter := url_counter p;
     effects := effects p; mount_effect_ran := mount_effect_ran p |}.

(** [URL.createObjectURL(blob)]: a fresh [blob:] URL entered in the
    store; entries leave the store only through [URL.revokeObjectURL]. *)
Definition createObjectURL (b : Blob) (p : Page) : string * Page :=
  let url := ("blob:" ++ nat_to_string (url_counter p))%string in
  (url, {| isMobileDevice := isMobileDevice p; screenshot := screenshot p;
           blob_url_store := blob_url_store p ++ [(url, b)];
           url_counter := S (url_counter p);
           effects := effects p; mount_effect_ran := mount_effect_ran p |}).

Definition revokeObjectURL (url : string) (p : Page) : Page :=
  {| isMobileDevice := isMobileDevice p; screenshot := screenshot p;
     blob_url_store := filter (fun e => negb (String.eqb (fst e) url)) (blob_url_store p);
     url_counter := url_counter p;
     effects := effects p; mount_effect_ran := mount_effect_ran p |}.

(** A URL an [<img>] can load: a data URI, or a blob URL in the store. *)
Definition resolvable (p : Page) (url : string) : Prop :=
  String.prefix "data:" url = true \/ In url (map fst (blob_url_store p)).

(** [handleImageUpload(image)] called without [await]: its effects are
    recorded, a rejected promise is reported as unhandled. *)
Definition fire_upload (env : UploadEnv) (image : Image) (p : Page) : Page :=
  let '(t, r) := run_upload env image in
  let t' := match r with Ok _ => t | Throw e => t ++ [EvUnhandledRejection e] end in
  {| isMobileDevice := isMobileDevice p; screenshot := screenshot p;
     blob_url_store := blob_url_store p; url_counter := url_counter p;
     effects := effects p ++ t'; mount_effect_ran := mount_effect_ran p |}.

(** [handleCapture] (lines 211-220). *)
Definition handleCapture (env : UploadEnv) (data : Image) (p : Page) : Page :=
  match data with
  | ImgString s => fire_upload env (ImgString s) (setScreenshot s p)
  | ImgBlob b =>
      let '(previewUrl, p1) := createObjectURL b p in
      fire_upload env (ImgBlob b) (setScreenshot previewUrl p1)
  end.

(** [handleMobileFile] (lines 222-229): [file] is [e.target.files?.[0]]. *)
Definition handleMobileFile (env : UploadEnv) (file : option Blob) (p : Page) : Page :=
  match file with
  | Some f =>
      let '(previewUrl, p1) := createObjectURL f p in
      fire_upload env (ImgBlob f) (setScreenshot previewUrl p1)
  | None => p
  end.

(** Case-insensitive comparison of a non-unicode [/i] regular expression:
    ASCII letters compare upper-cased.  (Code units of 128 and above never
    canonicalize to ASCII, so they never equal a letter of the pattern.) *)
Definition ascii_upper (c : ascii) : ascii :=
  if (97 <=? code c) && (code c <=? 122) then ascii_of_N (code c - 32) else c.

Fixpoint prefix_ci (w s : string) : bool :=
  match w, s with
  | EmptyString, _ => true
  | String c w', String d s' => Ascii.eqb (ascii_upper c) (ascii_upper d) && prefix_ci w' s'
  | String _ _, EmptyString => false
  end.

(** [re.test(s)] for [re = /w1|w2|...|wn/i]: some position of [s]
    starts a match of one alternative. *)
Fixpoint regex_alt_test_ci (alts : list string) (s : string) : bool :=
  existsb (fun w => prefix_ci w s) alts
  || match s with
     | EmptyString => false
     | String _ r => regex_alt_test_ci alts r
     end.

Definition mobile_words : list string := ["iPhone"; "iPad"; "iPod"; "Android"]%string.

(** The mount effect (lines 173-176); [navigator.userAgent || ""] is the
    user agent itself (an empty string stays empty). *)
Definition is_mobile_user_agent (userAgent : string) : bool :=
  regex_alt_test_ci mobile_words userAgent.

Inductive Widget := WMobileCamera | WMobileFileInput | WDesktopCamera.

Inductive View :=
| LoadingView
| MainView (widgets : list Widget) (preview : option string).

(** Truthiness of a string. *)
Definition js_truthy_string (s : string) : bool := negb (String.eqb s EmptyString).

(** [{screenshot && (<img src={screenshot} ... />)}] (lines 275-280):
    [null] and [""] show no preview. *)
Definition shown_preview (screenshot : option string) : option string :=
  match screenshot with
  | Some s => if js_truthy_string s then Some s else None
  | None => None
  end.

(** The JSX returned by [Analyse] (lines 231-286), reduced to which
    widgets are mounted and which preview is shown. *)
Definition render (p : Page) : View :=
  match isMobileDevice p with
  | None => LoadingView
  | Some true => MainView [WMobileCamera; WMobileFileInput] (shown_preview (screenshot p))
  | Some false => MainView [WDesktopCamera] (shown_preview (screenshot p))
  end.

(** What happens to the mounted page: a commit after a render (React then
    runs the effects whose dependencies changed: the [[]] effect only
    after the first), or a user capture. *)
Inductive PageEvent :=
| Commit
| CaptureEvent (env : UploadEnv) (data : Image)
| MobileFileEvent (env : UploadEnv) (file : option Blob).

Definition page_step (userAgent : string) (ev : PageEvent) (p : Page) : Page :=
  match ev with
  | Commit =>
      if mount_effect_ran p then p
      else {| isMobileDevice := Some (is_mobile_user_agent userAgent);
              screenshot := screenshot p; blob_url_store := blob_url_store p;
              url_counter := url_counter p; effects := effects p;
              mount_effect_ran := true |}
  | CaptureEvent env data => handleCapture env data p
  | MobileFileEvent env file => handleMobileFile env file p
  end.

(** The page after each prefix of the events, starting with [p]. *)
Fixpoint page_states (userAgent : string) (evs : list PageEvent) (p : Page) : list Page :=
  match evs with
  | [] => [p]
  | ev :: r => p :: page_states userAgent r (page_step userAgent ev p)
  end.

(** Spec wording: the string contains one of the mobile words, compared
    case-insensitively. *)
Definition contains_mobile_word (userAgent : string) : Prop :=
  exists w pre x suf, In w mobile_words /\ userAgent = (pre ++ x ++ suf)%string
                      /\ string_map ascii_upper x = string_map ascii_upper w.

(* ------------------------------------------------------------------ *)
(** ** [MobileCamera] (lines 28-105): facing mode and the stream effect *)

Inductive FacingMode := Environment | User.

(** [toggleCamera] (lines 80-82): the updater passed to [setFacingMode]. *)
Definition toggleCamera (prev : FacingMode) : FacingMode :=
  match prev with
  | Environment => User
  | User => Environment
  end.

(** One run of the [[facingMode]] effect: its closure variable
    [activeStream], whether its [getUserMedia] promise has settled, and
    whether its cleanup has run. *)
Record EffectRun := {
  run_facing : FacingMode;
  activeStream : option nat;
  settled : bool;
  cleaned_up : bool
}.

(** A media stream by id; [live] until [track.stop()] on its tracks. *)
Record MediaStream := {
  stream_id : nat;
  stream_facing : FacingMode;
  live : bool
}.

Record Camera := {
  facingMode : FacingMode;
  runs : list EffectRun;             (* effect runs, oldest first *)
  streams : list MediaStream;        (* every stream granted so far *)
  stream_state : option nat;         (* the [stream] state *)
  mounted : bool
}.

Definition camera_initial : Camera :=
  {| facingMode := Environment; runs := []; streams := []; stream_state := None;
     mounted := false |}.

Definition stop_stream (sid : nat) (ss : list MediaStream) : list MediaStream :=
  map (fun st => if Nat.eqb (stream_id st) sid
                 then {| stream_id := stream_id st; stream_facing := stream_facing st;
                         live := false |}
                 else st) ss.

(** Running the effect: [startCamera()] issues [getUserMedia]. *)
Definition run_effect (c : Camera) : Camera :=
  {| facingMode := facingMode c;
     runs := runs c ++ [{| run_facing := facingMode c; activeStream := None;
                           settled := false; cleaned_up := false |}];
     streams := streams c; stream_state := stream_state c; mounted := true |}.

(** The cleanup of the latest run: [if (activeStream) ...track.stop()]. *)
Definition cleanup_last (c : Camera) : Camera :=
  match rev (runs c) with
  | [] => c
  | r :: older =>
      let ss := match activeStream r with
                | Some sid => stop_stream sid (streams c)
                | None => streams c
                end in
      {| facingMode := facingMode c;
         runs := rev older ++ [{| run_facing := run_facing r; activeStream := activeStream r;
                                  settled := settled r; cleaned_up := true |}];
         streams := ss; stream_state := stream_state c; mounted := mounted c |}
  end.

Definition set_run (k : nat) (r : EffectRun) (rs : list EffectRun) : list EffectRun :=
  firstn k rs ++ [r] ++ skipn (S k) rs.

(** The [getUserMedia] promise of run [k] resolves with a new stream:
    [activeStream = mediaStream; ... setStream(mediaStream)]. *)
Definition grant (k : nat) (c : Camera) : Camera :=
  match nth_error (runs c) k with
  | Some r =>
      if settled r then c
      else
        let sid := length (streams c) in
        {| facingMode := facingMode c;
           runs := set_run k {| run_facing := run_facing r; activeStream := Some sid;
                                settled := true; cleaned_up := cleaned_up r |} (runs c);
           streams := streams c ++ [{| stream_id := sid; stream_facing := run_facing r;
                                       live := true |}];
           stream_state := Some sid; mounted := mounted c |}
  | None => c
  end.

(** The promise of run [k] rejects: the error is logged. *)
Definition deny (k : nat) (c : Camera) : Camera :=
  match nth_error (runs c) k with
  | Some r =>
      {| facingMode := facingMode c;
         runs := set_run k {| run_facing := run_facing r; activeStream := activeStream r;
                              settled := true; cleaned_up := cleaned_up r |} (runs c);
         streams := streams c; stream_state := stream_state c; mounted := mounted c |}
  | None => c
  end.

(** A (re)mount starts from the initial state of [useState]:
    [facingMode] ["environment"], [stream] [null]. *)
Inductive CameraEvent :=
| CamMount                 (* first commit: the effect runs *)
| CamToggle                (* "Switch Camera": new facing, cleanup, effect *)
| CamGrant (k : nat)
| CamDeny (k : nat)
| CamUnmount.

Definition set_facing (f : FacingMode) (c : Camera) : Camera :=
  {| facingMode := f; runs := runs c; streams := streams c;
     stream_state := stream_state c; mounted := mounted c |}.

Definition camera_step (ev : CameraEvent) (c : Camera) : Camera :=
  match ev with
  | CamMount =>
      if mounted c then c
      else run_effect {| facingMode := Environment; runs := runs c; streams := streams c;
                         stream_state := None; mounted := mounted c |}
  | CamToggle =>
      if mounted c then run_effect (cleanup_last (set_facing (toggleCamera (facingMode c)) c))
      else c
  | CamGrant k => grant k c
  | CamDeny k => deny k c
  | CamUnmount =>
      if mounted c then
        let c' := cleanup_last c in
        {| facingMode := facingMode c'; runs := runs c'; streams := streams c';
           stream_state := stream_state c'; mounted := false |}
      else c
  end.

Definition camera_run (evs : list CameraEvent) (c : Camera) : Camera :=
  fold_left (fun c ev => camera_step ev c) evs c.

Definition live_streams (c : Camera) : list MediaStream := filter live (streams c).

(** Position of the first [Commit] (the length if there is none). *)
Fixpoint first_commit (evs : list PageEvent) : nat :=
  match evs with
  | [] => 0
  | Commit :: _ => 0
  | _ :: r => S (first_commit r)
  end.

(* ------------------------------------------------------------------ *)
(** ** [MobileCamera]'s [capturePhoto] (lines 67-78) *)

(** The [<video>] element's intrinsic size; both are 0 until the
    stream's metadata has loaded. *)
Record Video := {
  videoWidth : N;
  videoHeight : N
}.

(** [x || d] on a number: [d] when [x] is falsy (0). *)
Definition num_or (x d : N) : N := if x =? 0 then d else x.

(** [canvas.toDataURL("image/jpeg")] on a [width] x [height] canvas:
    ["data:,"] when the bitmap has no pixels, else the JPEG file [jpeg]
    as a base64 data URI. *)
Definition toDataURL_jpeg (width height : N) (jpeg : string) : string :=
  if (width =? 0) || (height =? 0) then "data:,"%string
  else data_uri "image/jpeg" (btoa jpeg).

(** [capturePhoto]: [video] is [videoRef.current], [ctx] whether
    [getContext("2d")] returned a context, and [encode w h] the JPEG file
    the browser writes for the frame drawn on a [w] x [h] canvas.  The
    result is the argument [onCapture] is called with, if it is called. *)
Definition MobileCamera_capturePhoto (video : option Video) (ctx : bool)
    (encode : N -> N -> string) : option Image :=
  match video with
  | None => None
  | Some v =>
      let width := num_or (videoWidth v) 640 in
      let height := num_or (videoHeight v) 480 in
      if ctx then Some (ImgString (toDataURL_jpeg width height (encode width height)))
      else None
  end.

(* ------------------------------------------------------------------ *)
(** ** [DesktopCamera] (lines 110-164), wired to [handleCapture] *)

(** [capturePhoto]: [webcamRef.current] is the mounted [<Webcam>], [null]
    while [showWebcam] is false; [imageSrc] is what [getScreenshot()]
    returns ([null] before the camera is ready). *)
Definition DesktopCamera_capturePhoto (showWebcam : bool) (imageSrc : option string)
    : option Image :=
  if showWebcam then
    match imageSrc with
    | Some s => if js_truthy_string s then Some (ImgString s) else None
    | None => None
    end
  else None.

(** The file input's [onChange]: [file] is [e.target.files?.[0]]. *)
Definition DesktopCamera_file_change (file : option Blob) : option Image :=
  match file with
  | Some f => Some (ImgBlob f)
  | None => None
  end.

Definition on_capture (env : UploadEnv) (data : option Image) (p : Page) : Page :=
  match data with
  | Some d => handleCapture env d p
  | None => p
  end.

Inductive DesktopEvent :=
| OpenWebcam                               (* "Open Webcam" *)
| CloseWebcam                              (* "Close Webcam" *)
| DesktopCapture (imageSrc : option string)  (* "Capture Photo" *)
| DesktopFileChange (file : option Blob).    (* "Upload a photo" *)

(** The [showWebcam] state of [DesktopCamera] and the page it reports to. *)
Definition desktop_step (env : UploadEnv) (ev : DesktopEvent) (st : bool * Page)
    : bool * Page :=
  let '(showWebcam, p) := st in
  match ev with
  | OpenWebcam => (true, p)
  | CloseWebcam => (false, p)
  | DesktopCapture imageSrc =>
      (showWebcam, on_capture env (DesktopCamera_capturePhoto showWebcam imageSrc) p)
  | DesktopFileChange file =>
      (showWebcam, on_capture env (DesktopCamera_file_change file) p)
  end.

(* ------------------------------------------------------------------ *)
(** ** Uploads started by page events *)

(** The image a page event hands to [handleImageUpload], if any. *)
Definition event_upload (ev : PageEvent) : option (UploadEnv * Image) :=
  match ev with
  | Commit => None
  | CaptureEvent env data => Some (env, data)
  | MobileFileEvent env (Some f) => Some (env, ImgBlob f)
  | MobileFileEvent _ None => None
  end.

(* ------------------------------------------------------------------ *)
(** ** Timing of the camera requests *)

(** The latest effect run's [getUserMedia] request has not settled. *)
Definition latest_pending (c : Camera) : bool :=
  match rev (runs c) with
  | r :: _ => negb (settled r)
  | [] => false
  end.

(** "Switch Camera" and unmounting happen only while no request of the
    mounted camera is pending. *)
Fixpoint switches_after_settle (evs : list CameraEvent) (c : Camera) : bool :=
  match evs with
  | [] => true
  | ev :: r =>
      match ev with
      | CamToggle | CamUnmount => negb (mounted c && latest_pending c)
      | _ => true
      end && switches_after_settle r (camera_step ev c)
  end.

(** Invariant of the camera under [switches_after_settle]: stream ids are
    positions; a cleaned-up run has settled; an unsettled run holds no
    stream; every run but the latest one of the mounted camera is cleaned
    up, the latest has the current facing mode; a live stream is held by
    a run not cleaned up. *)
Definition camera_settled_inv (c : Camera) : Prop :=
  map stream_id (streams c) = seq 0 (length (streams c))
  /\ Forall (fun r => cleaned_up r = true -> settled r = true) (runs c)
  /\ Forall (fun r => settled r = false -> activeStream r = None) (runs c)
  /\ (exists olds, Forall (fun r => cleaned_up r = true) olds
       /\ if mounted c then exists r, runs c = olds ++ [r] /\ cleaned_up r = false
                                   /\ run_facing r = facingMode c
          else runs c = olds)
  /\ (forall st, In st (streams c) -> live st = true ->
        exists r, In r (runs c) /\ cleaned_up r = false
                  /\ activeStream r = Some (stream_id st) /\ stream_facing st = run_facing r).

(** The mounted camera's latest run is not cleaned up. *)
Definition last_uncleaned (c : Camera) : Prop :=
  mounted c = true -> exists olds r, runs c = olds ++ [r] /\ cleaned_up r = false.

(** Run [r] holds no stream, or one of the first [n] granted. *)
Definition holds_granted (n : nat) (r : EffectRun) : Prop :=
  match activeStream r with Some i => (i < n)%nat | None => True end.

(** Invariant of every reachable camera: the mounted camera's latest run
    is not cleaned up, and the runs hold ids of granted streams only. *)
Definition camera_reach_inv (c : Camera) : Prop :=
  last_uncleaned c /\ Forall (holds_granted (length (streams c))) (runs c).

(** Invariant after a stream [sid] was granted to a run already cleaned
    up: no run still to be cleaned up holds it, and it is live. *)
Definition orphan_inv (sid : nat) (f : FacingMode) (c : Camera) : Prop :=
  (sid < length (streams c))%nat
  /\ (mounted c = true -> exists olds r, runs c = olds ++ [r] /\ cleaned_up r = false)
  /\ Forall (fun r => cleaned_up r = false -> activeStream r <> Some sid) (runs c)
  /\ In {| stream_id := sid; stream_facing := f; live := true |} (streams c).

(** [n] facing modes alternating from [f]. *)
Fixpoint alternate (f : FacingMode) (n : nat) : list FacingMode :=
  match n with
  | O => []
  | S m => f :: alternate (toggleCamera f) m
  end.

(** Invariant of a camera never unmounted: the requests so far asked for
    alternating facing modes from [environment]; the latest asked for the
    current facing mode. *)
Definition facing_inv (c : Camera) : Prop :=
  map run_facing (runs c) = alternate Environment (length (runs c))
  /\ (mounted c = false -> runs c = [] /\ facingMode c = Environment)
  /\ (mounted c = true -> exists olds r, runs c = olds ++ [r] /\ run_facing r = facingMode c).

(** The text with its ASCII whitespace removed: all that [atob] looks at. *)
Fixpoint remove_whitespace (s : string) : string :=
  match s with
  | EmptyString => EmptyString
  | String c r =>
      if is_ascii_whitespace c then remove_whitespace r else String c (remove_whitespace r)
  end.

(* ------------------------------------------------------------------ *)
(** ** Concrete inputs *)

(** Ten JPEG-like bytes (SOI and the start of an APP0 segment). *)
Definition jpeg10 : string := string_of_bytes [255; 216; 255; 224; 0; 16; 74; 70; 73; 70].

Definition dquote : string := String (ascii_of_N 34) EmptyString.

(** The response body text [{"ok":true}] (and [{"ok":false}]). *)
Definition ok_body_text (b : bool) : string :=
  ("{" ++ dquote ++ "ok" ++ dquote ++ ":" ++ (if b then "true" else "false") ++ "}")%string.

Definition ok_body (b : bool) : Json := JObj [("ok"%string, JBool b)].

Definition example_origin : string := "https://marihacks.example"%string.

(** A browser page whose [fetch] resolves with [status] and [body]. *)
Definition env_responding (st : N) (text : string) (json : option Json) : UploadEnv :=
  {| window_origin := Some example_origin;
     fetch_outcome := FetchResolves {| status := st; body_text := text; body_json := json |} |}.

(* ================================================================== *)
(** * Proofs *)

Example atob_example_abc : atob "QUJD" = Some "ABC"%string. Proof. reflexivity. Qed.
Example btoa_example_ab : btoa "AB" = "QUI="%string. Proof. reflexivity. Qed.
Example atob_example_nonzero_bits : atob "QR==" = Some "A"%string. Proof. reflexivity. Qed.
Example base64ToBlob_example_invalid : base64ToBlob "data:image/jpeg;base64,***invalid***" = Throw InvalidCharacterError. Proof. reflexivity. Qed.
Example base64ToBlob_example_upper_mime : base64ToBlob "data:image/JPEG;base64,QUJD" = Ok (new_Blob [65;66;67] "image/JPEG"). Proof. reflexivity. Qed.
Example new_Blob_example_lowercase : blob_type (new_Blob [] "image/JPEG") = "image/jpeg"%string. Proof. reflexivity. Qed.

(* ------------------------------------------------------------------ *)
(** ** Bit arithmetic of base64 groups *)

Ltac bits_to_arith :=
  rewrite ?N.shiftl_mul_pow2, ?N.shiftr_div_pow2;
  change 255 with (N.ones 8) in *; change 63 with (N.ones 6) in *;
  rewrite ?N.land_ones, ?N.shiftr_div_pow2;
  repeat match goal with
         | |- context [2 ^ ?k] =>
             let v := eval vm_compute in (2 ^ k) in change (2 ^ k) with v
         end.

Lemma byte_digits (a d : N) : d <> 0 -> exists q r, a = d * q + r /\ r < d.
Proof.
  intros Hd. exists (a / d), (a mod d). split.
  - apply N.div_mod; exact Hd.
  - apply N.mod_lt; exact Hd.
Qed.

Lemma div_is (x d q r : N) : r < d -> x = d * q + r -> x / d = q.
Proof. intros. symmetry. apply N.div_unique with r; assumption. Qed.

Lemma mod_is (x d q r : N) : r < d -> x = d * q + r -> x mod d = r.
Proof. intros. symmetry. apply N.mod_unique with q; assumption. Qed.

Lemma group3_bits (a b c : N) : a < 256 -> b < 256 -> c < 256 ->
  let n := N.shiftl a 16 + N.shiftl b 8 + c in
  let s1 := N.shiftr n 18 in
  let s2 := N.land (N.shiftr n 12) 63 in
  let s3 := N.land (N.shiftr n 6) 63 in
  let s4 := N.land n 63 in
  let m := N.shiftl s1 18 + N.shiftl s2 12 + N.shiftl s3 6 + s4 in
  s1 < 64 /\ s2 < 64 /\ s3 < 64 /\ s4 < 64 /\
  N.shiftr m 16 = a /\ N.land (N.shiftr m 8) 255 = b /\ N.land m 255 = c.
Proof.
  intros Ha Hb Hc n s1 s2 s3 s4 m. subst n s1 s2 s3 s4 m. bits_to_arith.
  destruct (byte_digits a 4) as (q1 & r1 & -> & Hr1); [lia|].
  destruct (byte_digits b 16) as (q2 & r2 & -> & Hr2); [lia|].
  destruct (byte_digits c 64) as (q3 & r3 & -> & Hr3); [lia|].
  set (n := (4 * q1 + r1) * 65536 + (16 * q2 + r2) * 256 + (64 * q3 + r3)).
  assert (E1 : n / 262144 = q1)
    by (apply div_is with (r1 * 65536 + (16 * q2 + r2) * 256 + (64 * q3 + r3)); lia).
  assert (E2 : n / 4096 = 64 * q1 + (16 * r1 + q2))
    by (apply div_is with (r2 * 256 + (64 * q3 + r3)); lia).
  assert (E3 : n / 64 = 64 * ((4 * q1 + r1) * 16 + q2) + (4 * r2 + q3))
    by (apply div_is with r3; lia).
  assert (E4 : n mod 64 = r3)
    by (apply mod_is with ((4 * q1 + r1) * 1024 + (16 * q2 + r2) * 4 + q3); lia).
  rewrite E1, E2, E3, E4.
  rewrite (mod_is _ 64 q1 (16 * r1 + q2)) by lia.
  rewrite (mod_is _ 64 ((4 * q1 + r1) * 16 + q2) (4 * r2 + q3)) by lia.
  set (m := q1 * 262144 + (16 * r1 + q2) * 4096 + (4 * r2 + q3) * 64 + r3).
  assert (Em : m = n) by (subst m n; lia).
  rewrite Em. subst n.
  rewrite (div_is _ 65536 (4 * q1 + r1) ((16 * q2 + r2) * 256 + (64 * q3 + r3))) by lia.
  rewrite (div_is _ 256 ((4 * q1 + r1) * 256 + (16 * q2 + r2)) (64 * q3 + r3)) by lia.
  rewrite (mod_is _ 256 (4 * q1 + r1) (16 * q2 + r2)) by lia.
  rewrite (mod_is _ 256 ((4 * q1 + r1) * 256 + (16 * q2 + r2)) (64 * q3 + r3)) by lia.
  repeat split; lia.
Qed.

Lemma group2_bits (a b : N) : a < 256 -> b < 256 ->
  let n := N.shiftl a 16 + N.shiftl b 8 in
  let s1 := N.shiftr n 18 in
  let s2 := N.land (N.shiftr n 12) 63 in
  let s3 := N.land (N.shiftr n 6) 63 in
  let m := N.shiftr (N.shiftl s1 12 + N.shiftl s2 6 + s3) 2 in
  s1 < 64 /\ s2 < 64 /\ s3 < 64 /\ N.shiftr m 8 = a /\ N.land m 255 = b.
Proof.
  intros Ha Hb n s1 s2 s3 m. subst n s1 s2 s3 m. bits_to_arith.
  destruct (byte_digits a 4) as (q1 & r1 & -> & Hr1); [lia|].
  destruct (byte_digits b 16) as (q2 & r2 & -> & Hr2); [lia|].
  set (n := (4 * q1 + r1) * 65536 + (16 * q2 + r2) * 256).
  assert (E1 : n / 262144 = q1)
    by (apply div_is with (r1 * 65536 + (16 * q2 + r2) * 256); lia).
  assert (E2 : n / 4096 = 64 * q1 + (16 * r1 + q2))
    by (apply div_is with (r2 * 256); lia).
  assert (E3 : n / 64 = 64 * ((4 * q1 + r1) * 16 + q2) + 4 * r2)
    by (apply div_is with 0; lia).
  rewrite E1, E2, E3.
  rewrite (mod_is _ 64 q1 (16 * r1 + q2)) by lia.
  rewrite (mod_is _ 64 ((4 * q1 + r1) * 16 + q2) (4 * r2)) by lia.
  rewrite (div_is (q1 * 4096 + (16 * r1 + q2) * 64 + 4 * r2) 4
             ((4 * q1 + r1) * 256 + (16 * q2 + r2)) 0) by lia.
  rewrite (div_is _ 256 (4 * q1 + r1) (16 * q2 + r2)) by lia.
  rewrite (mod_is _ 256 (4 * q1 + r1) (16 * q2 + r2)) by lia.
  repeat split; lia.
Qed.

Lemma group1_bits (a : N) : a < 256 ->
  let n := N.shiftl a 16 in
  let s1 := N.shiftr n 18 in
  let s2 := N.land (N.shiftr n 12) 63 in
  s1 < 64 /\ s2 < 64 /\ N.shiftr (N.shiftl s1 6 + s2) 4 = a.
Proof.
  intros Ha n s1 s2. subst n s1 s2. bits_to_arith.
  destruct (byte_digits a 4) as (q1 & r1 & -> & Hr1); [lia|].
  rewrite (div_is ((4 * q1 + r1) * 65536) 262144 q1 (r1 * 65536)) by lia.
  rewrite (div_is ((4 * q1 + r1) * 65536) 4096 (64 * q1 + 16 * r1) 0) by lia.
  rewrite (mod_is _ 64 q1 (16 * r1)) by lia.
  rewrite (div_is (q1 * 64 + 16 * r1) 16 (4 * q1 + r1) 0) by lia.
  repeat split; lia.
Qed.

(* ------------------------------------------------------------------ *)
(** ** The base64 alphabet *)

Lemma lt64_check (f : N -> bool) :
  forallb (fun k => f (N.of_nat k)) (seq 0 64) = true -> forall x, x < 64 -> f x = true.
Proof.
  intros H x Hx. rewrite forallb_forall in H.
  rewrite <- (N2Nat.id x). apply H. apply in_seq. lia.
Qed.

Lemma char_sextet_sextet_char : forall x, x < 64 -> char_sextet (sextet_char x) = Some x.
Proof.
  intros x Hx.
  pose proof (lt64_check (fun x => match char_sextet (sextet_char x) with
                                   | Some y => N.eqb y x | None => false end)
                ltac:(vm_compute; reflexivity) x Hx) as H.
  cbv beta in H. destruct (char_sextet (sextet_char x)) as [y|]; [|discriminate].
  apply N.eqb_eq in H. subst. reflexivity.
Qed.

Lemma sextet_char_not_pad : forall x, x < 64 -> Ascii.eqb (sextet_char x) "="%char = false.
Proof.
  intros x Hx. apply negb_true_iff.
  exact (lt64_check (fun x => negb (Ascii.eqb (sextet_char x) "="%char)) ltac:(vm_compute; reflexivity) x Hx).
Qed.

Lemma sextet_char_not_ws : forall x, x < 64 -> is_ascii_whitespace (sextet_char x) = false.
Proof.
  intros x Hx. apply negb_true_iff.
  exact (lt64_check (fun x => negb (is_ascii_whitespace (sextet_char x))) ltac:(vm_compute; reflexivity) x Hx).
Qed.

Lemma sextet_char_not_comma : forall x, x < 64 -> Ascii.eqb (sextet_char x) ","%char = false.
Proof.
  intros x Hx. apply negb_true_iff.
  exact (lt64_check (fun x => negb (Ascii.eqb (sextet_char x) ","%char)) ltac:(vm_compute; reflexivity) x Hx).
Qed.

#[local] Arguments N.shiftl : simpl never.
#[local] Arguments N.shiftr : simpl never.
#[local] Arguments N.land : simpl never.
#[local] Arguments N.add : simpl never.

(* ------------------------------------------------------------------ *)
(** ** Structure of the encoder output *)

Lemma enc_sextets_lt (l : list N) : all_bytes l -> Forall (fun x => x < 64) (enc_sextets l).
Proof.
  revert l; fix IH 1; intros [|a [|b [|c rest]]] H; unfold all_bytes in H; simpl.
  - constructor.
  - inversion H; subst.
    destruct (group1_bits a) as (G1 & G2 & _); [assumption|].
    repeat constructor; assumption.
  - inversion H as [|? ? Ha H']; subst; inversion H'; subst.
    destruct (group2_bits a b) as (G1 & G2 & G3 & _); try assumption.
    repeat constructor; assumption.
  - inversion H as [|? ? Ha H']; subst; inversion H' as [|? ? Hb H'']; subst;
      inversion H''; subst.
    destruct (group3_bits a b c) as (G1 & G2 & G3 & G4 & _); try assumption.
    repeat constructor; try assumption. apply IH; assumption.
Qed.

Lemma encode_split (l : list N) :
  forgiving_base64_encode l = map sextet_char (enc_sextets l) ++ repeat "="%char (pad_count l).
Proof.
  revert l; fix IH 1; intros [|a [|b [|c rest]]]; simpl; try reflexivity.
  rewrite IH. reflexivity.
Qed.

Lemma enc_length (l : list N) : exists k,
  (length (enc_sextets l) = 4 * k /\ pad_count l = 0)%nat \/
  (length (enc_sextets l) = 4 * k + 3 /\ pad_count l = 1)%nat \/
  (length (enc_sextets l) = 4 * k + 2 /\ pad_count l = 2)%nat.
Proof.
  revert l; fix IH 1; intros [|a [|b [|c rest]]]; simpl.
  - exists 0%nat. left. auto.
  - exists 0%nat. right. right. auto.
  - exists 0%nat. right. left. auto.
  - destruct (IH rest) as (k & H). exists (S k). lia.
Qed.

Lemma pad_count_nonempty (l : list N) : pad_count l <> 0%nat -> enc_sextets l <> [].
Proof. destruct l as [|a [|b [|c rest]]]; simpl; congruence. Qed.

Lemma decode_enc_sextets (l : list N) : all_bytes l -> decode_sextets (enc_sextets l) = l.
Proof.
  revert l; fix IH 1; intros [|a [|b [|c rest]]] H; unfold all_bytes in H; simpl.
  - reflexivity.
  - inversion H; subst.
    destruct (group1_bits a) as (_ & _ & E); [assumption|].
    simpl in E. rewrite E. reflexivity.
  - inversion H as [|? ? Ha H']; subst; inversion H'; subst.
    destruct (group2_bits a b) as (_ & _ & _ & E1 & E2); try assumption.
    simpl in E1, E2. rewrite E1, E2. reflexivity.
  - inversion H as [|? ? Ha H']; subst; inversion H' as [|? ? Hb H'']; subst;
      inversion H''; subst.
    destruct (group3_bits a b c) as (_ & _ & _ & _ & E1 & E2 & E3); try assumption.
    simpl in E1, E2, E3. rewrite E1, E2, E3, IH by assumption. reflexivity.
Qed.

(* ------------------------------------------------------------------ *)
(** ** Decoding what the encoder wrote *)

Lemma filter_all_true {A} (f : A -> bool) (l : list A) :
  Forall (fun x => f x = true) l -> filter f l = l.
Proof.
  induction 1 as [|x l Hx _ IH]; simpl; [reflexivity|]. rewrite Hx, IH. reflexivity.
Qed.

Lemma map_option_sextets (s : list N) :
  Forall (fun x => x < 64) s -> map_option char_sextet (map sextet_char s) = Some s.
Proof.
  induction 1 as [|x s Hx _ IH]; simpl; [reflexivity|].
  rewrite char_sextet_sextet_char, IH by assumption. reflexivity.
Qed.

Lemma rev_map_sextets_nonpad (s : list N) :
  Forall (fun x => x < 64) s ->
  map sextet_char s = [] \/
  exists c r, rev (map sextet_char s) = c :: r /\ Ascii.eqb c "="%char = false.
Proof.
  intros Hs. rewrite <- map_rev.
  assert (Hr : Forall (fun x => x < 64) (rev s)) by (apply Forall_rev; assumption).
  destruct (rev s) as [|x r] eqn:E.
  - left. apply (f_equal (@rev N)) in E. rewrite rev_involutive in E. subst. reflexivity.
  - right. exists (sextet_char x), (map sextet_char r). split; [reflexivity|].
    inversion Hr; subst. apply sextet_char_not_pad. assumption.
Qed.

Lemma drop_padding_encoded (s : list N) (p : nat) :
  Forall (fun x => x < 64) s -> (p <= 2)%nat -> (p <> 0%nat -> s <> []) ->
  drop_padding (map sextet_char s ++ repeat "="%char p) = map sextet_char s.
Proof.
  intros Hs Hp Hne. unfold drop_padding.
  destruct (rev_map_sextets_nonpad s Hs) as [E | (c & r & E & Hc)].
  - destruct s; [|discriminate]. destruct p as [|[|[|]]]; try lia; reflexivity.
  - destruct p as [|[|[|]]]; try lia.
    + rewrite app_nil_r, E.
      destruct r as [|c2 r]; rewrite Hc; reflexivity.
    + simpl. rewrite rev_app_distr. simpl. rewrite E. simpl. rewrite Hc.
      change (rev r ++ [c]) with (rev (c :: r)). rewrite <- E, rev_involutive. reflexivity.
    + simpl. rewrite rev_app_distr. simpl. rewrite rev_involutive. reflexivity.
Qed.

Lemma of_nat_mod4 (k r : nat) : (r < 4)%nat -> N.of_nat (4 * k + r) mod 4 = N.of_nat r.
Proof.
  intros Hr. apply mod_is with (N.of_nat k); lia.
Qed.

Lemma forgiving_decode_encode (l : list N) :
  all_bytes l -> forgiving_base64_decode (forgiving_base64_encode l) = Some l.
Proof.
  intros Hl. pose proof (enc_sextets_lt l Hl) as Hs.
  unfold forgiving_base64_decode. rewrite encode_split.
  rewrite filter_all_true.
  2:{ apply Forall_app; split.
      - apply Forall_map. eapply Forall_impl; [|exact Hs].
        intros x Hx. simpl. rewrite sextet_char_not_ws by assumption. reflexivity.
      - apply Forall_forall. intros x Hx. apply repeat_spec in Hx. subst. reflexivity. }
  rewrite length_app, length_map, repeat_length.
  destruct (enc_length l) as (k & [[E P] | [[E P] | [E P]]]); rewrite E, P.
  - rewrite (of_nat_mod4 k 0) by lia. simpl (N.of_nat 0 =? 0). cbv iota.
    rewrite drop_padding_encoded by (try assumption; lia).
    rewrite length_map, E, <- (Nat.add_0_r (4 * k)), (of_nat_mod4 k 0) by lia.
    simpl (N.of_nat 0 =? 1). cbv iota.
    rewrite map_option_sextets by assumption. simpl.
    rewrite decode_enc_sextets by assumption. reflexivity.
  - replace (4 * k + 3 + 1)%nat with (4 * S k + 0)%nat by lia.
    rewrite (of_nat_mod4 (S k) 0) by lia. simpl (N.of_nat 0 =? 0). cbv iota.
    rewrite drop_padding_encoded
      by (try assumption; try lia; rewrite <- P; apply pad_count_nonempty).
    rewrite length_map, E, (of_nat_mod4 k 3) by lia.
    simpl (N.of_nat 3 =? 1). cbv iota.
    rewrite map_option_sextets by assumption. simpl.
    rewrite decode_enc_sextets by assumption. reflexivity.
  - replace (4 * k + 2 + 2)%nat with (4 * S k + 0)%nat by lia.
    rewrite (of_nat_mod4 (S k) 0) by lia. simpl (N.of_nat 0 =? 0). cbv iota.
    rewrite drop_padding_encoded
      by (try assumption; try lia; rewrite <- P; apply pad_count_nonempty).
    rewrite length_map, E, (of_nat_mod4 k 2) by lia.
    simpl (N.of_nat 2 =? 1). cbv iota.
    rewrite map_option_sextets by assumption. simpl.
    rewrite decode_enc_sextets by assumption. reflexivity.
Qed.

(* ------------------------------------------------------------------ *)
(** ** [atob] and [btoa] on strings *)

Lemma bytes_of_string_bytes (s : string) : all_bytes (bytes_of_string s).
Proof.
  unfold all_bytes, bytes_of_string. apply Forall_map, Forall_forall.
  intros c _. apply N_ascii_bounded.
Qed.

Lemma string_of_bytes_of_string (s : string) : string_of_bytes (bytes_of_string s) = s.
Proof.
  unfold string_of_bytes, bytes_of_string. rewrite map_map.
  rewrite (map_ext _ (fun c => c)) by (intros; apply ascii_N_embedding).
  rewrite map_id. apply string_of_list_ascii_of_string.
Qed.

Lemma atob_btoa (s : string) : atob (btoa s) = Some s.
Proof.
  unfold atob, btoa. rewrite list_ascii_of_string_of_list_ascii.
  rewrite forgiving_decode_encode by apply bytes_of_string_bytes.
  simpl. rewrite string_of_bytes_of_string. reflexivity.
Qed.

Lemma no_char_of_list (c : ascii) (l : list ascii) :
  Forall (fun d => Ascii.eqb d c = false) l -> no_char c (string_of_list_ascii l) = true.
Proof. induction 1 as [|d l Hd _ IH]; simpl; [reflexivity|]. rewrite Hd, IH. reflexivity. Qed.

Lemma btoa_no_comma (s : string) : no_char ","%char (btoa s) = true.
Proof.
  unfold btoa. apply no_char_of_list. rewrite encode_split. apply Forall_app. split.
  - apply Forall_map.
    eapply Forall_impl; [|apply enc_sextets_lt, bytes_of_string_bytes].
    intros x Hx. apply sextet_char_not_comma. assumption.
  - apply Forall_forall. intros x Hx. apply repeat_spec in Hx. subst. reflexivity.
Qed.

(* ------------------------------------------------------------------ *)
(** ** Splitting and matching a data URI *)

Lemma string_app_assoc (a b c : string) : ((a ++ b) ++ c = a ++ b ++ c)%string.
Proof. induction a as [|x a IH]; simpl; [reflexivity|]. rewrite IH. reflexivity. Qed.

Lemma js_split_no_sep (sep : ascii) (s : string) :
  no_char sep s = true -> js_split sep s = [s].
Proof.
  induction s as [|c r IH]; simpl; [reflexivity|].
  intros H. apply andb_prop in H as [H1 H2]. rewrite IH by assumption.
  apply negb_true_iff in H1. rewrite H1. reflexivity.
Qed.

Lemma js_split_nonempty (sep : ascii) (s : string) : js_split sep s <> [].
Proof.
  destruct s as [|c r]; simpl; [discriminate|].
  destruct (js_split sep r); [discriminate|]. destruct (Ascii.eqb c sep); discriminate.
Qed.

Lemma js_split_at_sep (sep : ascii) (s1 s2 : string) :
  no_char sep s1 = true -> js_split sep (s1 ++ String sep s2) = s1 :: js_split sep s2.
Proof.
  induction s1 as [|c r IH]; simpl; intros H.
  - rewrite Ascii.eqb_refl.
    destruct (js_split sep s2) eqn:E; [exfalso; exact (js_split_nonempty sep s2 E)|reflexivity].
  - apply andb_prop in H as [H1 H2]. rewrite IH by assumption.
    apply negb_true_iff in H1. rewrite H1. reflexivity.
Qed.

Lemma lazy_upto_semicolon_text (mime rest : string) :
  no_char ";"%char mime = true -> no_char (ascii_of_N 10) mime = true ->
  no_char (ascii_of_N 13) mime = true ->
  lazy_upto_semicolon (mime ++ String ";" rest) = Some mime.
Proof.
  induction mime as [|c r IH]; simpl; intros H1 H2 H3; [reflexivity|].
  apply andb_prop in H1 as [A1 B1]. apply andb_prop in H2 as [A2 B2].
  apply andb_prop in H3 as [A3 B3]. apply negb_true_iff in A1, A2, A3.
  rewrite A1. rewrite IH by assumption.
  unfold is_line_terminator, code.
  replace (N_of_ascii c =? 10) with false.
  2:{ symmetry. apply N.eqb_neq. intros E. apply Ascii.eqb_neq in A2. apply A2.
      rewrite <- (ascii_N_embedding c), E. reflexivity. }
  replace (N_of_ascii c =? 13) with false.
  2:{ symmetry. apply N.eqb_neq. intros E. apply Ascii.eqb_neq in A3. apply A3.
      rewrite <- (ascii_N_embedding c), E. reflexivity. }
  reflexivity.
Qed.

Lemma data_uri_split (mime b64 : string) :
  mime_text_ok mime = true -> no_char ","%char b64 = true ->
  js_split ","%char (data_uri mime b64) = [("data:" ++ mime ++ ";base64")%string; b64].
Proof.
  unfold mime_text_ok, data_uri. intros H Hb.
  repeat (apply andb_prop in H as [H ?]).
  replace ("data:" ++ mime ++ ";base64," ++ b64)%string
    with (("data:" ++ mime ++ ";base64") ++ String "," b64)%string
    by (rewrite !string_app_assoc; reflexivity).
  rewrite js_split_at_sep, (js_split_no_sep _ b64 Hb); [reflexivity|].
  simpl.
  assert (G : forall a b, no_char ","%char a = true -> no_char ","%char b = true ->
              no_char ","%char (a ++ b) = true).
  { induction a as [|x a IHa]; simpl; intros b Ha Hb'; [assumption|].
    apply andb_prop in Ha as [Hx Ha]. rewrite Hx, IHa by assumption. reflexivity. }
  apply G; [assumption|reflexivity].
Qed.

Lemma data_uri_mime (mime : string) :
  mime_text_ok mime = true ->
  match_colon_semicolon ("data:" ++ mime ++ ";base64")%string = Some mime.
Proof.
  unfold mime_text_ok. intros H. repeat (apply andb_prop in H as [H ?]).
  simpl. rewrite lazy_upto_semicolon_text by assumption. reflexivity.
Qed.

Lemma uint8_fill_exact (s : string) : uint8_fill s = bytes_of_string s.
Proof.
  unfold uint8_fill. rewrite <- (map_id (bytes_of_string s)) at 2.
  apply map_ext_in. intros x Hx. apply N.mod_small.
  pose proof (bytes_of_string_bytes s) as H. unfold all_bytes in H.
  rewrite Forall_forall in H. apply H. assumption.
Qed.

Lemma base64ToBlob_btoa (mime payload : string) :
  mime_text_ok mime = true ->
  base64ToBlob (data_uri mime (btoa payload)) = Ok (new_Blob (bytes_of_string payload) mime).
Proof.
  intros Hm.
  pose proof (data_uri_split mime (btoa payload) Hm (btoa_no_comma payload)) as Hs.
  unfold base64ToBlob. rewrite Hs. unfold js_index, js_to_string. cbn [nth_error option_map].
  rewrite atob_btoa, data_uri_mime by assumption.
  rewrite uint8_fill_exact. reflexivity.
Qed.

Lemma data_uri_remainder (mime b64 : string) :
  mime_text_ok mime = true -> no_char ","%char b64 = true ->
  base64_remainder (data_uri mime b64) = b64 /\ extracted_mime (data_uri mime b64) = Some mime.
Proof.
  intros Hm Hb. unfold base64_remainder, extracted_mime.
  rewrite data_uri_split by assumption. simpl js_index.
  split; [reflexivity|]. apply data_uri_mime; assumption.
Qed.

(* ------------------------------------------------------------------ *)
(** ** C1: normalization of a data URI *)

(** C1 (as amended).  For a data URI [data:<mime>;base64,<b64>] whose
    base64 text is canonical, i.e. is [btoa] of some binary string
    [payload] (what [canvas.toDataURL] produces), [base64ToBlob] succeeds,
    the Blob holds exactly the bytes of [payload] (no re-encoding),
    re-encoding those bytes with [btoa] gives back the text after the
    comma, the extracted [mimeString] is the text between [:] and [;],
    and the Blob's type is that text as the Blob constructor normalizes
    it. *)
Theorem base64ToBlob_canonical_roundtrip (mime payload : string) :
  mime_text_ok mime = true ->
  exists blob,
    base64ToBlob (data_uri mime (btoa payload)) = Ok blob
    /\ blob_bytes blob = bytes_of_string payload
    /\ btoa (string_of_bytes (blob_bytes blob))
       = base64_remainder (data_uri mime (btoa payload))
    /\ extracted_mime (data_uri mime (btoa payload)) = Some mime
    /\ blob_type blob = blob_type_of_option mime.
Proof.
  intros Hm.
  destruct (data_uri_remainder mime (btoa payload) Hm (btoa_no_comma payload)) as [R X].
  exists (new_Blob (bytes_of_string payload) mime).
  rewrite base64ToBlob_btoa, R, X by assumption. simpl.
  rewrite string_of_bytes_of_string. repeat split; reflexivity.
Qed.

(** Witness of C1: ten JPEG-like bytes as [image/jpeg]. *)
Lemma base64ToBlob_canonical_roundtrip_witness :
  exists blob,
    base64ToBlob (data_uri "image/jpeg" (btoa jpeg10)) = Ok blob
    /\ blob_bytes blob = bytes_of_string jpeg10
    /\ btoa (string_of_bytes (blob_bytes blob))
       = base64_remainder (data_uri "image/jpeg" (btoa jpeg10))
    /\ extracted_mime (data_uri "image/jpeg" (btoa jpeg10)) = Some "image/jpeg"%string
    /\ blob_type blob = blob_type_of_option "image/jpeg".
Proof. exact (base64ToBlob_canonical_roundtrip "image/jpeg" jpeg10 eq_refl). Defined.

(** C1 (counterexample).  [atob] accepts the non-canonical remainder
    [QR==] (non-zero discarded bits): the data URI decodes to the single
    byte [A], whose base64 is [QQ==], not the original [QR==]. *)
Lemma base64ToBlob_noncanonical_not_roundtrip :
  base64ToBlob "data:image/jpeg;base64,QR==" = Ok (new_Blob [65] "image/jpeg")
  /\ btoa (string_of_bytes [65]) = "QQ=="%string
  /\ base64_remainder "data:image/jpeg;base64,QR==" = "QR=="%string.
Proof. repeat split; reflexivity. Qed.

(* ------------------------------------------------------------------ *)
(** ** The upload client *)

Lemma build_form_data_trace (image : Image) (t : list Event) :
  build_form_data image t = (t, snd (build_form_data image [])).
Proof.
  destruct image as [s|b]; simpl; [|reflexivity].
  destruct (String.prefix "data:" s); [|reflexivity].
  unfold bind, lift. destruct (base64ToBlob s); reflexivity.
Qed.

Lemma run_upload_cases (env : UploadEnv) (image : Image) :
  run_upload env image =
  match snd (build_form_data image []) with
  | Throw e => ([], Throw e)
  | Ok fd =>
      (EvPost (api_endpoint env) fd ::
         match fetch_outcome env with
         | FetchRejects e => [EvConsoleError [AStr "Error uploading image:"; AErr e]]
         | FetchResolves r =>
             if response_ok r then
               match body_json r with
               | Some j => [EvConsoleLog [AStr "Server response:"; AJson j]]
               | None => [EvConsoleError [AStr "Error uploading image:";
                                          AErr (SyntaxError "Unexpected token")]]
               end
             else [EvConsoleError [AStr "Upload error"; ANum (status r); AStr (body_text r)]]
         end, Ok tt)
  end.
Proof.
  unfold run_upload, handleImageUpload.
  unfold bind at 1. rewrite build_form_data_trace.
  destruct (snd (build_form_data image [])) as [fd|e]; [|reflexivity].
  unfold try_catch, fetch, bind, emit. simpl.
  destruct (fetch_outcome env) as [e|r]; simpl; [reflexivity|].
  destruct (response_ok r); simpl.
  - unfold response_json. destruct (body_json r); reflexivity.
  - reflexivity.
Qed.

Lemma base64ToBlob_throws_iff (s : string) :
  (exists e, base64ToBlob s = Throw e) <->
  atob (base64_remainder s) = None \/ extracted_mime s = None.
Proof.
  unfold base64ToBlob, base64_remainder, extracted_mime, js_index.
  destruct (js_split ","%char s) as [|p0 ps] eqn:E;
    [exfalso; exact (js_split_nonempty _ _ E)|].
  change (nth_error (p0 :: ps) 0) with (Some p0). cbn [option_map].
  destruct (atob (js_to_string (nth_error (p0 :: ps) 1))) as [bs|];
    [|split; [intros _; left; reflexivity|intros _; eexists; reflexivity]].
  destruct (match_colon_semicolon p0) as [m|].
  - split; [intros [e He]; discriminate|intros [H|H]; discriminate].
  - split; [intros _; right; reflexivity|intros _; eexists; reflexivity].
Qed.

Lemma data_uri_prefix (mime b64 : string) : String.prefix "data:" (data_uri mime b64) = true.
Proof. unfold data_uri. simpl. destruct mime; reflexivity. Qed.

Lemma build_form_data_data_uri (s : string) :
  String.prefix "data:" s = true ->
  snd (build_form_data (ImgString s) []) =
  match base64ToBlob s with
  | Ok blob => Ok (append_blob [] "image" blob (Some "captured.jpg"%string))
  | Throw e => Throw e
  end.
Proof.
  intros H. cbn [build_form_data]. rewrite H. unfold bind, lift.
  destruct (base64ToBlob s); reflexivity.
Qed.

Lemma base64ToBlob_cases (s : string) :
  base64ToBlob s =
  match atob (base64_remainder s) with
  | None => Throw InvalidCharacterError
  | Some bs =>
      match extracted_mime s with
      | Some m => Ok (new_Blob (uint8_fill bs) m)
      | None => Throw (TypeError "Cannot read properties of null (reading '1')")
      end
  end.
Proof.
  unfold base64ToBlob, base64_remainder, extracted_mime, js_index.
  destruct (js_split ","%char s) as [|p0 ps] eqn:E;
    [exfalso; exact (js_split_nonempty _ _ E)|].
  reflexivity.
Qed.

(* ------------------------------------------------------------------ *)
(** ** C2: malformed data URIs *)

(** C2 (as amended).  For a string starting with [data:], the upload
    throws before any request (its promise rejects, nothing is posted)
    exactly when [atob] rejects the text between the first and second
    comma, or the part before the first comma has no [:] followed on the
    same line by [;].  The rejection is [atob]'s InvalidCharacterError in
    the first case and the TypeError of reading [[1]] of [null] in the
    second; no other error (no MalformedDataUri) can come out of it. *)
Theorem handleImageUpload_data_uri_no_post_iff (env : UploadEnv) (s : string) :
  String.prefix "data:" s = true ->
  ((exists e, run_upload env (ImgString s) = ([], Throw e)) <->
   (atob (base64_remainder s) = None \/ extracted_mime s = None))
  /\ (atob (base64_remainder s) = None ->
      run_upload env (ImgString s) = ([], Throw InvalidCharacterError))
  /\ (atob (base64_remainder s) <> None -> extracted_mime s = None ->
      run_upload env (ImgString s) = ([], Throw (TypeError "Cannot read properties of null (reading '1')")))
  /\ (forall t e, run_upload env (ImgString s) = (t, Throw e) ->
      t = [] /\ (e = InvalidCharacterError \/ e = TypeError "Cannot read properties of null (reading '1')")).
Proof.
  intros H. rewrite run_upload_cases, build_form_data_data_uri by assumption.
  rewrite (base64ToBlob_cases s).
  destruct (atob (base64_remainder s)) as [bs|]; [destruct (extracted_mime s) as [m|]|].
  - split; [split; [intros [e He]; discriminate|intros [Ha|Ha]; discriminate]|].
    split; [intros Ha; discriminate|]. split; [intros _ Hm; discriminate|].
    intros t e He; discriminate.
  - split; [split; [intros _; right; reflexivity|intros _; eexists; reflexivity]|].
    split; [intros Ha; discriminate|]. split; [intros _ _; reflexivity|].
    intros t e He. inversion He; subst. split; [reflexivity|right; reflexivity].
  - split; [split; [intros _; left; reflexivity|intros _; eexists; reflexivity]|].
    split; [intros _; reflexivity|]. split; [intros Ha; exfalso; apply Ha; reflexivity|].
    intros t e He. inversion He; subst. split; [reflexivity|left; reflexivity].
Qed.

(** Witness of C2 on the spec's input [data:image/jpeg;base64,***invalid***]
    (InvalidCharacterError) and on [data:image/jpeg,QQ==] (no [;]: the
    TypeError). *)
Lemma handleImageUpload_data_uri_no_post_iff_witness :
  run_upload (env_responding 200 (ok_body_text true) (Some (ok_body true)))
    (ImgString "data:image/jpeg;base64,***invalid***") = ([], Throw InvalidCharacterError)
  /\ run_upload (env_responding 200 (ok_body_text true) (Some (ok_body true)))
       (ImgString "data:image/jpeg,QQ==") = ([], Throw (TypeError "Cannot read properties of null (reading '1')")).
Proof.
  split.
  - apply (proj1 (proj2 (handleImageUpload_data_uri_no_post_iff
                           (env_responding 200 (ok_body_text true) (Some (ok_body true)))
                           "data:image/jpeg;base64,***invalid***" eq_refl))).
    reflexivity.
  - apply (proj1 (proj2 (proj2 (handleImageUpload_data_uri_no_post_iff
                                  (env_responding 200 (ok_body_text true) (Some (ok_body true)))
                                  "data:image/jpeg,QQ==" eq_refl)))).
    + intros Ha. vm_compute in Ha. discriminate Ha.
    + reflexivity.
Defined.

(** C2 (counterexample).  A prefix without [;base64] is accepted, and so
    is a remainder with a second comma followed by non-base64 text: both
    decode, and the first is posted. *)
Lemma base64ToBlob_unchecked_prefix_and_tail :
  base64ToBlob "data:text/plain;charset=utf-8,QQ==" = Ok (new_Blob [65] "text/plain")
  /\ base64ToBlob "data:image/jpeg;base64,QQ==,***invalid***" = Ok (new_Blob [65] "image/jpeg")
  /\ count_posts (fst (run_upload (env_responding 200 (ok_body_text true) (Some (ok_body true)))
                         (ImgString "data:text/plain;charset=utf-8,QQ=="))) = 1%nat.
Proof. repeat split; reflexivity. Qed.

(* ------------------------------------------------------------------ *)
(** ** C3: uploading a well-formed data URI *)

(** C3 (as amended).  For a string starting with [data:] whose text
    after the first comma [atob] decodes to a binary string [bs] (canonical
    base64 or not: [QR==], or text with whitespace, are accepted) and whose
    part before it yields a [mimeString], the FormData has one file field
    [image] holding exactly the bytes of [bs], one per code unit, under the
    name [captured.jpg]; it is posted once, and on a 2xx response with a
    JSON body the parsed body is written to [console.log] and the promise
    resolves with [undefined].  For a well-formed [data:<mime>;base64,<b64>]
    the decoded text is [b64] and the [mimeString] is [mime]. *)
Theorem handleImageUpload_data_uri_success (env : UploadEnv) (s bs m : string)
    (r : Response) (j : Json) :
  String.prefix "data:" s = true ->
  atob (base64_remainder s) = Some bs -> extracted_mime s = Some m ->
  fetch_outcome env = FetchResolves r -> response_ok r = true -> body_json r = Some j ->
  run_upload env (ImgString s) =
  ([EvPost (api_endpoint env)
      [FileEntry "image" (bytes_of_string bs) (blob_type_of_option m) "captured.jpg"];
    EvConsoleLog [AStr "Server response:"; AJson j]], Ok tt)
  /\ length (bytes_of_string bs) = String.length bs
  /\ (forall mime b64, mime_text_ok mime = true -> no_char ","%char b64 = true ->
      s = data_uri mime b64 -> base64_remainder s = b64 /\ m = mime).
Proof.
  intros Hp Ha Hx Hf Hok Hj. split; [|split].
  - rewrite run_upload_cases, build_form_data_data_uri by exact Hp.
    rewrite (base64ToBlob_cases s), Ha, Hx, Hf, Hok, Hj.
    unfold append_blob, new_Blob. cbn. rewrite uint8_fill_exact. reflexivity.
  - unfold bytes_of_string. rewrite length_map. clear.
    induction bs as [|c r' IH]; simpl; [reflexivity|]. rewrite IH. reflexivity.
  - intros mime b64 Hm Hb ->.
    destruct (data_uri_remainder mime b64 Hm Hb) as [R X].
    split; [exact R|]. rewrite X in Hx. injection Hx as <-. reflexivity.
Qed.

(** Witness of C3: the non-canonical [QR==] (the one byte [A]) and the
    spec's ten JPEG-like bytes, each answered by 200 [{"ok":true}]. *)
Lemma handleImageUpload_data_uri_success_witness :
  run_upload (env_responding 200 (ok_body_text true) (Some (ok_body true)))
    (ImgString "data:image/jpeg;base64,QR==") =
  ([EvPost (example_origin ++ "/api/upload")
      [FileEntry "image" [65] "image/jpeg" "captured.jpg"];
    EvConsoleLog [AStr "Server response:"; AJson (ok_body true)]], Ok tt)
  /\ run_upload (env_responding 200 (ok_body_text true) (Some (ok_body true)))
       (ImgString (data_uri "image/jpeg" (btoa jpeg10))) =
     ([EvPost (example_origin ++ "/api/upload")
         [FileEntry "image" (bytes_of_string jpeg10) "image/jpeg" "captured.jpg"];
       EvConsoleLog [AStr "Server response:"; AJson (ok_body true)]], Ok tt)
  /\ length (bytes_of_string jpeg10) = 10%nat.
Proof.
  split; [|split].
  - exact (proj1 (handleImageUpload_data_uri_success
                    (env_responding 200 (ok_body_text true) (Some (ok_body true)))
                    "data:image/jpeg;base64,QR==" "A" "image/jpeg"
                    {| status := 200; body_text := ok_body_text true;
                       body_json := Some (ok_body true) |}
                    (ok_body true) eq_refl eq_refl eq_refl eq_refl eq_refl eq_refl)).
  - exact (proj1 (handleImageUpload_data_uri_success
                    (env_responding 200 (ok_body_text true) (Some (ok_body true)))
                    (data_uri "image/jpeg" (btoa jpeg10)) jpeg10 "image/jpeg"
                    {| status := 200; body_text := ok_body_text true;
                       body_json := Some (ok_body true) |}
                    (ok_body true) eq_refl eq_refl eq_refl eq_refl eq_refl eq_refl)).
  - reflexivity.
Defined.

(** C3 (counterexample).  The promise resolves with [undefined] whatever
    JSON the server sent: [{"ok":true}] and [{"ok":false}] give the caller
    the same result, so no outcome carries the parsed body. *)
Lemma handleImageUpload_result_ignores_body :
  snd (run_upload (env_responding 200 (ok_body_text true) (Some (ok_body true)))
         (ImgString (data_uri "image/jpeg" (btoa jpeg10)))) = Ok tt
  /\ snd (run_upload (env_responding 200 (ok_body_text false) (Some (ok_body false)))
            (ImgString (data_uri "image/jpeg" (btoa jpeg10)))) = Ok tt
  /\ ok_body true <> ok_body false.
Proof. split; [reflexivity|split; [reflexivity|discriminate]]. Qed.

(* ------------------------------------------------------------------ *)
(** ** C4: one request, failures reported *)

(** C4 (as amended).  Whenever the FormData is built without throwing,
    the upload issues exactly one POST, to [<origin>/api/upload], and no
    other request; a fetch rejection is reported with its cause, a
    non-2xx response with its status and body text, and a 2xx body that
    is not JSON with the SyntaxError, each through [console.error]; in
    every case the promise resolves with [undefined].  A data URI that
    [base64ToBlob] rejects issues no POST: the promise rejects with that
    error and nothing else happens. *)
Theorem handleImageUpload_single_post (env : UploadEnv) (image : Image) (fd : list FormEntry) :
  snd (build_form_data image []) = Ok fd ->
  run_upload env image =
    (EvPost (api_endpoint env) fd ::
       match fetch_outcome env with
       | FetchRejects e => [EvConsoleError [AStr "Error uploading image:"; AErr e]]
       | FetchResolves r =>
           if response_ok r then
             match body_json r with
             | Some j => [EvConsoleLog [AStr "Server response:"; AJson j]]
             | None => [EvConsoleError [AStr "Error uploading image:";
                                        AErr (SyntaxError "Unexpected token")]]
             end
           else [EvConsoleError [AStr "Upload error"; ANum (status r); AStr (body_text r)]]
       end, Ok tt)
  /\ count_posts (fst (run_upload env image)) = 1%nat
  /\ api_endpoint env = match window_origin env with
                        | Some o => (o ++ "/api/upload")%string
                        | None => "/api/upload"%string
                        end
  /\ (forall s e, String.prefix "data:" s = true -> base64ToBlob s = Throw e ->
      run_upload env (ImgString s) = ([], Throw e)
      /\ count_posts (fst (run_upload env (ImgString s))) = 0%nat).
Proof.
  intros Hfd. split; [|split; [|split]].
  - rewrite run_upload_cases, Hfd. reflexivity.
  - rewrite run_upload_cases, Hfd.
    simpl. destruct (fetch_outcome env) as [e|r]; [reflexivity|].
    destruct (response_ok r); [destruct (body_json r)|]; reflexivity.
  - reflexivity.
  - intros s e Hp He.
    rewrite run_upload_cases, build_form_data_data_uri, He by exact Hp.
    split; reflexivity.
Qed.

(** Witness of C4: a File upload answered by [500 "server error"]. *)
Lemma handleImageUpload_single_post_witness :
  run_upload (env_responding 500 "server error" None)
    (ImgBlob {| blob_bytes := [1; 2; 3]; blob_type := "image/png"; file_name := Some "fridge.png"%string |}) =
    ([EvPost (example_origin ++ "/api/upload")
        [FileEntry "image" [1; 2; 3] "image/png" "fridge.png"];
      EvConsoleError [AStr "Upload error"; ANum 500; AStr "server error"]], Ok tt)
  /\ count_posts (fst (run_upload (env_responding 500 "server error" None)
       (ImgBlob {| blob_bytes := [1; 2; 3]; blob_type := "image/png";
                   file_name := Some "fridge.png"%string |}))) = 1%nat
  /\ api_endpoint (env_responding 500 "server error" None) = (example_origin ++ "/api/upload")%string
  /\ run_upload (env_responding 500 "server error" None)
       (ImgString "data:image/jpeg;base64,***invalid***") = ([], Throw InvalidCharacterError).
Proof.
  destruct (handleImageUpload_single_post (env_responding 500 "server error" None)
              (ImgBlob {| blob_bytes := [1; 2; 3]; blob_type := "image/png";
                          file_name := Some "fridge.png"%string |})
              [FileEntry "image" [1; 2; 3] "image/png" "fridge.png"] eq_refl)
    as [A [B [C D]]].
  split; [exact A|]. split; [exact B|]. split; [exact C|].
  exact (proj1 (D "data:image/jpeg;base64,***invalid***"%string InvalidCharacterError
                  eq_refl eq_refl)).
Defined.

(** C4 (counterexample).  A [500 "server error"] answer settles the
    promise exactly like a success: no Failure value reaches the caller. *)
Lemma handleImageUpload_failure_not_returned :
  snd (run_upload (env_responding 500 "server error" None) (ImgString (data_uri "image/jpeg" (btoa jpeg10))))
  = snd (run_upload (env_responding 200 (ok_body_text true) (Some (ok_body true)))
           (ImgString (data_uri "image/jpeg" (btoa jpeg10)))).
Proof. reflexivity. Qed.

(* ------------------------------------------------------------------ *)
(** ** C5: the mobile camera stream *)

(** The latest effect run's granted stream is stopped by a toggle. *)
Lemma camera_toggle_stops_granted (c : Camera) (r : EffectRun) (older : list EffectRun)
    (sid : nat) :
  mounted c = true -> rev (runs c) = r :: older -> activeStream r = Some sid ->
  forall st, In st (streams (camera_step CamToggle c)) -> stream_id st = sid -> live st = false.
Proof.
  intros Hm Hr Ha st Hin Hid. simpl in Hin. rewrite Hm in Hin.
  unfold run_effect, cleanup_last, set_facing in Hin. simpl in Hin.
  rewrite Hr, Ha in Hin. simpl in Hin.
  unfold stop_stream in Hin. apply in_map_iff in Hin as (st0 & <- & _).
  destruct (Nat.eqb (stream_id st0) sid) eqn:E; [reflexivity|].
  apply Nat.eqb_neq in E. exfalso. apply E. exact Hid.
Qed.

(** With the first stream granted before the switch, one stream is live
    after the new one is granted: the user-facing one. *)
Example camera_toggle_after_grant :
  map stream_facing (live_streams (camera_run [CamMount; CamGrant 0; CamToggle; CamGrant 1]
                                              camera_initial)) = [User].
Proof. reflexivity. Qed.

(** C5 (code bug).  Switching the camera before the first [getUserMedia]
    resolves: the cleanup finds [activeStream] still [null] and stops
    nothing; when both requests resolve, two streams are live, the
    environment-facing one never to be stopped. *)
Lemma camera_toggle_before_grant_two_live :
  map stream_facing (live_streams (camera_run [CamMount; CamToggle; CamGrant 0; CamGrant 1]
                                              camera_initial)) = [Environment; User]
  /\ map stream_facing (live_streams (camera_run [CamMount; CamToggle; CamGrant 0; CamGrant 1;
                                                  CamUnmount] camera_initial)) = [Environment].
Proof. split; reflexivity. Qed.

(* ------------------------------------------------------------------ *)
(** ** Frame lemmas of the page handlers *)

Lemma fire_upload_frame (env : UploadEnv) (image : Image) (p : Page) :
  isMobileDevice (fire_upload env image p) = isMobileDevice p
  /\ screenshot (fire_upload env image p) = screenshot p
  /\ blob_url_store (fire_upload env image p) = blob_url_store p
  /\ url_counter (fire_upload env image p) = url_counter p
  /\ mount_effect_ran (fire_upload env image p) = mount_effect_ran p.
Proof.
  unfold fire_upload. destruct (run_upload env image) as [t r]. repeat split.
Qed.

Lemma handleCapture_frame (env : UploadEnv) (data : Image) (p : Page) :
  isMobileDevice (handleCapture env data p) = isMobileDevice p
  /\ mount_effect_ran (handleCapture env data p) = mount_effect_ran p.
Proof.
  destruct data as [s|b]; simpl; unfold fire_upload;
    [destruct (run_upload env (ImgString s))|destruct (run_upload env (ImgBlob b))];
    split; reflexivity.
Qed.

Lemma handleMobileFile_frame (env : UploadEnv) (file : option Blob) (p : Page) :
  isMobileDevice (handleMobileFile env file p) = isMobileDevice p
  /\ mount_effect_ran (handleMobileFile env file p) = mount_effect_ran p.
Proof.
  destruct file as [f|]; simpl; [|split; reflexivity].
  unfold fire_upload. destruct (run_upload env (ImgBlob f)). split; reflexivity.
Qed.

Lemma page_step_store_grows (ua : string) (ev : PageEvent) (p : Page) :
  exists extra, blob_url_store (page_step ua ev p) = blob_url_store p ++ extra.
Proof.
  destruct ev as [|env [s|b]|env [f|]]; simpl.
  - destruct (mount_effect_ran p); exists []; rewrite app_nil_r; reflexivity.
  - exists []. rewrite (proj1 (proj2 (proj2 (fire_upload_frame _ _ _)))), app_nil_r.
    reflexivity.
  - exists [(("blob:" ++ nat_to_string (url_counter p))%string, b)].
    rewrite (proj1 (proj2 (proj2 (fire_upload_frame _ _ _)))). reflexivity.
  - exists [(("blob:" ++ nat_to_string (url_counter p))%string, f)].
    rewrite (proj1 (proj2 (proj2 (fire_upload_frame _ _ _)))). reflexivity.
  - exists []. rewrite app_nil_r. reflexivity.
Qed.

Lemma handleCapture_preview (env : UploadEnv) (data : Image) (p : Page) :
  screenshot (handleCapture env data p)
  = Some match data with
         | ImgString s => s
         | ImgBlob _ => ("blob:" ++ nat_to_string (url_counter p))%string
         end
  /\ blob_url_store (handleCapture env data p)
     = blob_url_store p ++ match data with
                           | ImgString _ => []
                           | ImgBlob b => [(("blob:" ++ nat_to_string (url_counter p))%string, b)]
                           end.
Proof.
  destruct data as [s|b]; simpl; unfold fire_upload;
    [destruct (run_upload env (ImgString s))|destruct (run_upload env (ImgBlob b))];
    simpl; [rewrite app_nil_r|]; split; reflexivity.
Qed.

Lemma handleMobileFile_preview (env : UploadEnv) (f : Blob) (p : Page) :
  screenshot (handleMobileFile env (Some f) p)
  = Some ("blob:" ++ nat_to_string (url_counter p))%string
  /\ blob_url_store (handleMobileFile env (Some f) p)
     = blob_url_store p ++ [(("blob:" ++ nat_to_string (url_counter p))%string, f)].
Proof.
  simpl. unfold fire_upload. destruct (run_upload env (ImgBlob f)). split; reflexivity.
Qed.

(* ------------------------------------------------------------------ *)
(** ** C6: superseded previews *)

(** C6 (as amended).  Each capture replaces [screenshot] with the new
    preview reference, whatever it held before (the last write wins): a
    data URI capture stores the data URI itself and leaves the blob URL
    store as it is; a Blob or File capture, from either handler, stores a
    fresh blob URL and adds it to the store.  No event of the page ever
    removes a blob URL from the store: after two Blob captures both URLs
    are in it, in order, and [screenshot] holds the second. *)
Theorem capture_previews_never_revoked (ua : string) (env1 env2 : UploadEnv)
    (b1 b2 : Blob) (p : Page) :
  (forall ev q, exists extra, blob_url_store (page_step ua ev q) = blob_url_store q ++ extra)
  /\ (forall env s q, screenshot (handleCapture env (ImgString s) q) = Some s
                      /\ blob_url_store (handleCapture env (ImgString s) q) = blob_url_store q)
  /\ (forall env b q,
        screenshot (handleCapture env (ImgBlob b) q)
        = Some ("blob:" ++ nat_to_string (url_counter q))%string
        /\ blob_url_store (handleCapture env (ImgBlob b) q)
           = blob_url_store q ++ [(("blob:" ++ nat_to_string (url_counter q))%string, b)])
  /\ (forall env f q,
        screenshot (handleMobileFile env (Some f) q)
        = Some ("blob:" ++ nat_to_string (url_counter q))%string
        /\ blob_url_store (handleMobileFile env (Some f) q)
           = blob_url_store q ++ [(("blob:" ++ nat_to_string (url_counter q))%string, f)])
  /\ screenshot (handleCapture env2 (ImgBlob b2) (handleCapture env1 (ImgBlob b1) p))
     = Some ("blob:" ++ nat_to_string (S (url_counter p)))%string
  /\ blob_url_store (handleCapture env2 (ImgBlob b2) (handleCapture env1 (ImgBlob b1) p))
     = blob_url_store p ++ [(("blob:" ++ nat_to_string (url_counter p))%string, b1);
                           (("blob:" ++ nat_to_string (S (url_counter p)))%string, b2)].
Proof.
  split; [intros ev q; apply page_step_store_grows|].
  split; [intros env s q; rewrite <- (app_nil_r (blob_url_store q));
          exact (handleCapture_preview env (ImgString s) q)|].
  split; [intros env b q; exact (handleCapture_preview env (ImgBlob b) q)|].
  split; [intros env f q; exact (handleMobileFile_preview env f q)|].
  simpl. unfold fire_upload.
  destruct (run_upload env1 (ImgBlob b1)) as [t1 r1].
  destruct (run_upload env2 (ImgBlob b2)) as [t2 r2]. simpl.
  rewrite <- app_assoc. split; reflexivity.
Qed.

(** C6 (counterexample).  Two file captures from the freshly mounted
    page: the first preview URL is still resolvable next to the second. *)
Lemma two_captures_both_resolvable :
  let f1 := {| blob_bytes := [1]; blob_type := "image/png"; file_name := Some "a.png"%string |} in
  let f2 := {| blob_bytes := [2]; blob_type := "image/png"; file_name := Some "b.png"%string |} in
  let env := env_responding 200 (ok_body_text true) (Some (ok_body true)) in
  let p2 := handleMobileFile env (Some f2) (handleMobileFile env (Some f1) initial_page) in
  screenshot p2 = Some "blob:1"%string
  /\ resolvable p2 "blob:0" /\ resolvable p2 "blob:1" /\ "blob:0"%string <> "blob:1"%string.
Proof.
  simpl. split; [reflexivity|]. split; [right; simpl; auto|].
  split; [right; simpl; auto|discriminate].
Qed.

(* ------------------------------------------------------------------ *)
(** ** C7: the preview does not depend on the upload *)

(** C7.  Whatever the upload does (a 500 answer, a network error, a
    malformed data URI), the preview set by a capture is the data URI
    itself or the new blob URL: the stored [screenshot] and the rendered
    page do not depend on the upload environment, and the page shows the
    preview.  ([{screenshot && ...}] hides an empty string; the capture
    widgets never pass one: [DesktopCamera] checks [if (imageSrc)] and
    [toDataURL] returns a [data:] URL.) *)
Theorem capture_preview_independent_of_upload (env : UploadEnv) (data : Image) (p : Page)
    (m : bool) :
  isMobileDevice p = Some m ->
  let preview := match data with
                 | ImgString s => s
                 | ImgBlob _ => ("blob:" ++ nat_to_string (url_counter p))%string
                 end in
  screenshot (handleCapture env data p) = Some preview
  /\ (forall env', screenshot (handleCapture env' data p) = screenshot (handleCapture env data p)
                   /\ render (handleCapture env' data p) = render (handleCapture env data p))
  /\ (match data with ImgString s => s <> EmptyString | ImgBlob _ => True end ->
      exists widgets, render (handleCapture env data p) = MainView widgets (Some preview)).
Proof.
  intros Hm preview.
  assert (S : forall e, screenshot (handleCapture e data p) = Some preview)
    by (intros e; exact (proj1 (handleCapture_preview e data p))).
  split; [exact (S env)|]. split.
  - intros env'. rewrite (S env'), (S env). split; [reflexivity|].
    unfold render. rewrite (proj1 (handleCapture_frame env' data p)),
                           (proj1 (handleCapture_frame env data p)), (S env'), (S env).
    reflexivity.
  - intros Hne.
    assert (T : js_truthy_string preview = true).
    { subst preview. destruct data as [s|b]; unfold js_truthy_string; [|reflexivity].
      apply negb_true_iff, String.eqb_neq. exact Hne. }
    unfold render. rewrite (proj1 (handleCapture_frame env data p)), Hm, (S env).
    unfold shown_preview. rewrite T. destruct m; eexists; reflexivity.
Qed.

(** Witness of C7: a data URI capture answered by [500 "server error"]. *)
Lemma capture_preview_independent_of_upload_witness :
  screenshot (handleCapture (env_responding 500 "server error" None)
                (ImgString (data_uri "image/jpeg" (btoa jpeg10)))
                {| isMobileDevice := Some true; screenshot := None; blob_url_store := [];
                   url_counter := 0; effects := []; mount_effect_ran := true |})
  = Some (data_uri "image/jpeg" (btoa jpeg10))
  /\ exists widgets,
       render (handleCapture (env_responding 500 "server error" None)
                 (ImgString (data_uri "image/jpeg" (btoa jpeg10)))
                 {| isMobileDevice := Some true; screenshot := None; blob_url_store := [];
                    url_counter := 0; effects := []; mount_effect_ran := true |})
       = MainView widgets (Some (data_uri "image/jpeg" (btoa jpeg10))).
Proof.
  pose proof (capture_preview_independent_of_upload (env_responding 500 "server error" None)
                (ImgString (data_uri "image/jpeg" (btoa jpeg10)))
                {| isMobileDevice := Some true; screenshot := None; blob_url_store := [];
                   url_counter := 0; effects := []; mount_effect_ran := true |} true eq_refl)
    as H.
  cbv zeta in H. destruct H as [A [_ C]].
  split; [exact A|]. apply C. unfold data_uri. intros Hd. discriminate Hd.
Defined.

(* ------------------------------------------------------------------ *)
(** ** C8: Blob and File captures *)

(** C8 (as amended).  A Blob or File capture goes into one file field
    [image] with its bytes and type unchanged; the filename is the File's
    own name, or ["blob"] for a Blob that is not a File. *)
Theorem build_form_data_blob (b : Blob) :
  snd (build_form_data (ImgBlob b) []) =
  Ok [FileEntry "image" (blob_bytes b) (blob_type b)
        (match file_name b with Some n => n | None => "blob"%string end)].
Proof. reflexivity. Qed.

(** C8 (counterexample).  A plain Blob is sent under the name ["blob"],
    not the placeholder ["captured.jpg"]. *)
Lemma build_form_data_plain_blob_name :
  snd (build_form_data (ImgBlob {| blob_bytes := [255; 216]; blob_type := "image/jpeg";
                                   file_name := None |}) [])
  = Ok [FileEntry "image" [255; 216] "image/jpeg" "blob"]
  /\ "blob"%string <> "captured.jpg"%string.
Proof. split; [reflexivity|discriminate]. Qed.

(* ------------------------------------------------------------------ *)
(** ** C9: capture-mode detection *)

Lemma prefix_ci_spec (w s : string) :
  prefix_ci w s = true <->
  exists x suf, s = (x ++ suf)%string /\ string_map ascii_upper x = string_map ascii_upper w.
Proof.
  revert s; induction w as [|c w IH]; intros s.
  - split; [intros _; exists EmptyString, s; split; reflexivity|reflexivity].
  - destruct s as [|d s]; simpl.
    + split; [discriminate|].
      intros (x & suf & E & U). destruct x; [discriminate|discriminate].
    + split.
      * intros H. apply andb_prop in H as [H1 H2]. apply Ascii.eqb_eq in H1.
        apply IH in H2 as (x & suf & -> & U).
        exists (String d x), suf. simpl. rewrite H1, U. split; reflexivity.
      * intros (x & suf & E & U). destruct x as [|d' x]; [discriminate|].
        simpl in E, U. injection E as -> E. injection U as U1 U2.
        rewrite U1, Ascii.eqb_refl. simpl. apply IH. exists x, suf. split; assumption.
Qed.

Lemma regex_alt_test_ci_spec (alts : list string) (s : string) :
  regex_alt_test_ci alts s = true <->
  exists w pre x suf, In w alts /\ s = (pre ++ x ++ suf)%string
                      /\ string_map ascii_upper x = string_map ascii_upper w.
Proof.
  induction s as [|c s IH].
  - simpl. rewrite orb_false_r, existsb_exists. split.
    + intros (w & Hin & Hp). apply prefix_ci_spec in Hp as (x & suf & E & U).
      exists w, EmptyString, x, suf. split; [assumption|]. split; assumption.
    + intros (w & pre & x & suf & Hin & E & U). exists w. split; [assumption|].
      apply prefix_ci_spec. destruct pre; [|discriminate]. exists x, suf. split; assumption.
  - simpl. rewrite orb_true_iff, existsb_exists, IH. split.
    + intros [(w & Hin & Hp)|(w & pre & x & suf & Hin & E & U)].
      * apply prefix_ci_spec in Hp as (x & suf & E & U).
        exists w, EmptyString, x, suf. split; [assumption|]. split; assumption.
      * exists w, (String c pre), x, suf. split; [assumption|].
        simpl. rewrite E. split; [reflexivity|assumption].
    + intros (w & pre & x & suf & Hin & E & U). destruct pre as [|c' pre].
      * left. exists w. split; [assumption|]. apply prefix_ci_spec.
        exists x, suf. split; assumption.
      * right. simpl in E. injection E as _ E. exists w, pre, x, suf. auto.
Qed.

Lemma page_step_not_commit (ua : string) (ev : PageEvent) (p : Page) :
  ev <> Commit ->
  isMobileDevice (page_step ua ev p) = isMobileDevice p
  /\ mount_effect_ran (page_step ua ev p) = mount_effect_ran p.
Proof.
  intros Hev. destruct ev as [|env data|env file]; [congruence| |]; simpl.
  - apply handleCapture_frame.
  - apply handleMobileFile_frame.
Qed.

Lemma page_states_detected (ua : string) (evs : list PageEvent) (p : Page) (b : bool) :
  mount_effect_ran p = true -> isMobileDevice p = Some b ->
  forall i q, nth_error (page_states ua evs p) i = Some q -> isMobileDevice q = Some b.
Proof.
  revert p; induction evs as [|ev evs IH]; intros p Hr Hm i q Hq.
  - destruct i as [|[|]]; simpl in Hq; try discriminate. injection Hq as <-. assumption.
  - destruct i as [|i]; simpl in Hq; [injection Hq as <-; assumption|].
    destruct ev as [|env data|env file].
    + simpl in Hq. rewrite Hr in Hq. exact (IH p Hr Hm i q Hq).
    + destruct (page_step_not_commit ua (CaptureEvent env data) p ltac:(discriminate)) as [A B].
      apply (IH _ ltac:(rewrite B; assumption) ltac:(rewrite A; assumption) i q Hq).
    + destruct (page_step_not_commit ua (MobileFileEvent env file) p ltac:(discriminate)) as [A B].
      apply (IH _ ltac:(rewrite B; assumption) ltac:(rewrite A; assumption) i q Hq).
Qed.

Lemma page_states_detection (ua : string) (evs : list PageEvent) (p : Page) :
  mount_effect_ran p = false -> isMobileDevice p = None ->
  forall i q, nth_error (page_states ua evs p) i = Some q ->
  isMobileDevice q = if (i <? S (first_commit evs))%nat then None
                     else Some (is_mobile_user_agent ua).
Proof.
  revert p; induction evs as [|ev evs IH]; intros p Hr Hm i q Hq.
  - destruct i as [|[|]]; simpl in Hq; try discriminate. injection Hq as <-. assumption.
  - destruct i as [|i]; simpl in Hq.
    + injection Hq as <-. rewrite Hm. destruct ev; reflexivity.
    + destruct ev as [|env data|env file].
      * simpl in Hq. rewrite Hr in Hq.
        eapply (page_states_detected ua evs) in Hq; [| reflexivity | reflexivity].
        rewrite Hq. destruct i; reflexivity.
      * destruct (page_step_not_commit ua (CaptureEvent env data) p ltac:(discriminate)) as [A B].
        rewrite (IH _ ltac:(rewrite B; assumption) ltac:(rewrite A; assumption) i q Hq).
        reflexivity.
      * destruct (page_step_not_commit ua (MobileFileEvent env file) p ltac:(discriminate))
          as [A B].
        rewrite (IH _ ltac:(rewrite B; assumption) ltac:(rewrite A; assumption) i q Hq).
        reflexivity.
Qed.

(** C9.  Along any run of the mounted page, [isMobileDevice] is [null]
    up to the first commit and from then on constantly
    [is_mobile_user_agent userAgent], which holds exactly when the user
    agent contains iPhone, iPad, iPod or Android in any letter case;
    while it is [null] the page renders only the loading view. *)
Theorem analyse_capture_mode_detection (ua : string) (evs : list PageEvent) :
  (forall i q, nth_error (page_states ua evs initial_page) i = Some q ->
     isMobileDevice q = if (i <? S (first_commit evs))%nat then None
                        else Some (is_mobile_user_agent ua))
  /\ (forall q, isMobileDevice q = None -> render q = LoadingView)
  /\ (is_mobile_user_agent ua = true <-> contains_mobile_word ua).
Proof.
  split; [apply page_states_detection; reflexivity|].
  split; [intros q Hq; unfold render; rewrite Hq; reflexivity|].
  apply regex_alt_test_ci_spec.
Qed.

(* ------------------------------------------------------------------ *)
(** ** C10: switching the camera *)

(** C10.  [toggleCamera] swaps the two facing modes and is an involution. *)
Theorem toggleCamera_involution (f : FacingMode) :
  toggleCamera f <> f /\ toggleCamera (toggleCamera f) = f
  /\ toggleCamera Environment = User /\ toggleCamera User = Environment.
Proof. destruct f; repeat split; discriminate || reflexivity. Qed.

(* ================================================================== *)
(** * Further properties of the page *)

(* ------------------------------------------------------------------ *)
(** ** Helpers *)

Lemma run_upload_ok (env : UploadEnv) (image : Image) (fd : list FormEntry) :
  snd (build_form_data image []) = Ok fd ->
  snd (run_upload env image) = Ok tt
  /\ exists rest, fst (run_upload env image) = EvPost (api_endpoint env) fd :: rest
                  /\ count_posts rest = 0%nat.
Proof.
  intros H. rewrite run_upload_cases, H. split; [reflexivity|].
  eexists. split; [reflexivity|].
  destruct (fetch_outcome env) as [e|r]; [reflexivity|].
  destruct (response_ok r); [destruct (body_json r)|]; reflexivity.
Qed.

Lemma remove_whitespace_list (s : string) :
  list_ascii_of_string (remove_whitespace s)
  = filter (fun c => negb (is_ascii_whitespace c)) (list_ascii_of_string s).
Proof.
  induction s as [|c r IH]; [reflexivity|]. simpl.
  destruct (is_ascii_whitespace c); simpl; rewrite IH; reflexivity.
Qed.

Lemma atob_strip (s t : string) :
  remove_whitespace s = remove_whitespace t -> atob s = atob t.
Proof.
  unfold atob, forgiving_base64_decode. intros H.
  rewrite <- !remove_whitespace_list, H. reflexivity.
Qed.

Lemma js_split_remove_ws (s : string) :
  map remove_whitespace (js_split ","%char s) = js_split ","%char (remove_whitespace s).
Proof.
  induction s as [|c r IH]; [reflexivity|].
  cbn [js_split remove_whitespace].
  destruct (js_split ","%char r) as [|p ps] eqn:E; [exfalso; exact (js_split_nonempty _ _ E)|].
  destruct (Ascii.eqb c ","%char) eqn:Ec.
  - apply Ascii.eqb_eq in Ec. subst c.
    change (is_ascii_whitespace ","%char) with false. cbn iota.
    cbn [js_split]. rewrite <- IH. reflexivity.
  - destruct (is_ascii_whitespace c) eqn:Ew.
    + cbn [map remove_whitespace]. rewrite Ew. exact IH.
    + cbn [map remove_whitespace js_split]. rewrite Ew, <- IH. cbn [map]. rewrite Ec.
      reflexivity.
Qed.

(** Whatever precedes the first comma added by [pre ++ ","], the first
    part is [pre]'s own and the second part depends only on the
    whitespace-free text after it. *)
Lemma js_split_comma_tail (pre b b' : string) :
  remove_whitespace b = remove_whitespace b' ->
  js_index (js_split ","%char (pre ++ String "," b)) 0
  = js_index (js_split ","%char (pre ++ String "," b')) 0
  /\ option_map remove_whitespace (js_index (js_split ","%char (pre ++ String "," b)) 1)
     = option_map remove_whitespace (js_index (js_split ","%char (pre ++ String "," b')) 1).
Proof.
  intros Hw. induction pre as [|c r IH].
  - pose proof (js_split_remove_ws b) as Hb. pose proof (js_split_remove_ws b') as Hb'.
    rewrite Hw in Hb. rewrite <- Hb' in Hb. clear Hb'.
    cbn [append js_split]. rewrite Ascii.eqb_refl.
    destruct (js_split ","%char b) as [|p ps] eqn:E; [exfalso; exact (js_split_nonempty _ _ E)|].
    destruct (js_split ","%char b') as [|p' ps'] eqn:E';
      [exfalso; exact (js_split_nonempty _ _ E')|].
    cbn [map] in Hb. injection Hb as Hp _.
    split; [reflexivity|]. cbn. rewrite Hp. reflexivity.
  - destruct IH as [I0 I1]. cbn [append js_split].
    destruct (js_split ","%char (r ++ String "," b)) as [|p ps] eqn:E;
      [exfalso; exact (js_split_nonempty _ _ E)|].
    destruct (js_split ","%char (r ++ String "," b')) as [|p' ps'] eqn:E';
      [exfalso; exact (js_split_nonempty _ _ E')|].
    cbn in I0. injection I0 as <-.
    destruct (Ascii.eqb c ","%char); cbn in *; [split; reflexivity|].
    split; [reflexivity|exact I1].
Qed.

Lemma fire_upload_effects (env : UploadEnv) (image : Image) (q : Page) :
  exists t, effects (fire_upload env image q) = effects q ++ t
  /\ match snd (build_form_data image []) with
     | Ok fd => count_posts t = 1%nat /\ exists rest, t = EvPost (api_endpoint env) fd :: rest
     | Throw e => t = [EvUnhandledRejection e]
     end.
Proof.
  destruct (snd (build_form_data image [])) as [fd|e] eqn:Hb.
  - destruct (run_upload_ok env image fd Hb) as (Hr & rest & Ht & Hc).
    unfold fire_upload. destruct (run_upload env image) as [t r].
    simpl in Hr, Ht. subst r t. exists (EvPost (api_endpoint env) fd :: rest).
    split; [reflexivity|]. split; [simpl; rewrite Hc; reflexivity|exists rest; reflexivity].
  - unfold fire_upload. rewrite run_upload_cases, Hb. exists [EvUnhandledRejection e].
    split; reflexivity.
Qed.

(* ------------------------------------------------------------------ *)
(** ** The upload client: other inputs *)

(** X1.  A string that does not start with [data:] (the test is case
    sensitive: [DATA:...] is such a string) is never decoded: it is
    posted once as the text field [imageUrl], unchanged, and the promise
    resolves. *)
Theorem handleImageUpload_non_data_string (env : UploadEnv) (s : string) :
  String.prefix "data:" s = false ->
  snd (build_form_data (ImgString s) []) = Ok [StringEntry "imageUrl" s]
  /\ count_posts (fst (run_upload env (ImgString s))) = 1%nat
  /\ snd (run_upload env (ImgString s)) = Ok tt.
Proof.
  intros H.
  assert (Hb : snd (build_form_data (ImgString s) []) = Ok [StringEntry "imageUrl" s]).
  { simpl. rewrite H. reflexivity. }
  destruct (run_upload_ok env (ImgString s) _ Hb) as (Hr & rest & Ht & Hc).
  split; [exact Hb|]. split; [rewrite Ht; simpl; rewrite Hc; reflexivity|exact Hr].
Qed.

Lemma handleImageUpload_non_data_string_witness :
  snd (build_form_data (ImgString "DATA:image/png;base64,QQ==") [])
    = Ok [StringEntry "imageUrl" "DATA:image/png;base64,QQ=="]
  /\ count_posts (fst (run_upload (env_responding 200 (ok_body_text true) (Some (ok_body true)))
                        (ImgString "DATA:image/png;base64,QQ=="))) = 1%nat
  /\ snd (run_upload (env_responding 200 (ok_body_text true) (Some (ok_body true)))
            (ImgString "DATA:image/png;base64,QQ==")) = Ok tt.
Proof.
  apply (handleImageUpload_non_data_string
           (env_responding 200 (ok_body_text true) (Some (ok_body true)))
           "DATA:image/png;base64,QQ=="). reflexivity.
Defined.

(** X2.  The promise of [handleImageUpload] rejects only for a string
    starting with [data:] that [base64ToBlob] rejects, and then with
    [base64ToBlob]'s error; every other image (any Blob or File, any
    other string) settles it successfully, whatever the network does. *)
Theorem handleImageUpload_rejects_iff (env : UploadEnv) (image : Image) (e : JsError) :
  snd (run_upload env image) = Throw e <->
  exists s, image = ImgString s /\ String.prefix "data:" s = true /\ base64ToBlob s = Throw e.
Proof.
  rewrite run_upload_cases. split.
  - destruct image as [s|b]; simpl.
    + destruct (String.prefix "data:" s) eqn:Hp; [|discriminate].
      unfold bind, lift. destruct (base64ToBlob s) as [blob|e'] eqn:Hs; simpl; [discriminate|].
      intros He. injection He as <-. exists s. auto.
    + discriminate.
  - intros (s & -> & Hp & Hs). rewrite build_form_data_data_uri, Hs by assumption. reflexivity.
Qed.

(* ------------------------------------------------------------------ *)
(** ** [base64ToBlob]: edge cases *)

(** X3.  A string without a comma has no [parts[1]]: [atob] receives
    [undefined], converts it to the text [undefined] (nine characters, not
    base64) and throws, so [base64ToBlob] always fails with
    InvalidCharacterError and such a data URI is never posted. *)
Theorem base64ToBlob_no_comma_throws (env : UploadEnv) (s : string) :
  no_char ","%char s = true ->
  base64ToBlob s = Throw InvalidCharacterError
  /\ (String.prefix "data:" s = true -> run_upload env (ImgString s) = ([], Throw InvalidCharacterError)).
Proof.
  intros H.
  assert (B : base64ToBlob s = Throw InvalidCharacterError).
  { unfold base64ToBlob. rewrite js_split_no_sep by assumption. reflexivity. }
  split; [exact B|]. intros Hp.
  rewrite run_upload_cases, build_form_data_data_uri, B by assumption. reflexivity.
Qed.

Lemma base64ToBlob_no_comma_throws_witness :
  base64ToBlob "data:image/png;base64" = Throw InvalidCharacterError
  /\ (String.prefix "data:" "data:image/png;base64" = true ->
      run_upload (env_responding 200 (ok_body_text true) (Some (ok_body true)))
        (ImgString "data:image/png;base64") = ([], Throw InvalidCharacterError)).
Proof.
  apply (base64ToBlob_no_comma_throws
           (env_responding 200 (ok_body_text true) (Some (ok_body true)))
           "data:image/png;base64"). reflexivity.
Defined.

(** X4.  The text after the first comma that a data URI's prefix ends
    with may contain ASCII whitespace (space, tab, line feed, form feed,
    carriage return) anywhere, whatever the prefix: two texts equal once
    whitespace is removed give the same Blob (or the same error). *)
Theorem base64ToBlob_ignores_whitespace (pre b64 b64' : string) :
  remove_whitespace b64 = remove_whitespace b64' ->
  base64ToBlob (pre ++ String "," b64) = base64ToBlob (pre ++ String "," b64').
Proof.
  intros Hw. destruct (js_split_comma_tail pre b64 b64' Hw) as [I0 I1].
  unfold base64ToBlob. cbv zeta. rewrite I0.
  destruct (js_index (js_split ","%char (pre ++ String "," b64)) 1) as [x|];
    destruct (js_index (js_split ","%char (pre ++ String "," b64')) 1) as [y|];
    cbn [option_map] in I1; try discriminate I1.
  - injection I1 as Hxy. cbn [js_to_string]. rewrite (atob_strip x y Hxy). reflexivity.
  - reflexivity.
Qed.

(** Witness of X4: a [text/plain;charset=utf-8] prefix, [QUJD] against
    [QU JD] with a space and a line feed. *)
Lemma base64ToBlob_ignores_whitespace_witness :
  base64ToBlob ("data:text/plain;charset=utf-8;base64" ++ String "," "QUJD")
  = base64ToBlob ("data:text/plain;charset=utf-8;base64"
                  ++ String "," (String "Q" (String "U" (String " " (String (ascii_of_N 10) "JD")))))
  /\ base64ToBlob ("data:text/plain;charset=utf-8;base64" ++ String "," "QUJD")
     = Ok (new_Blob [65; 66; 67] "text/plain").
Proof.
  split; [apply base64ToBlob_ignores_whitespace; reflexivity|reflexivity].
Defined.

(* ------------------------------------------------------------------ *)
(** ** Capturing from the cameras *)

Lemma num_or_nonzero (x d : N) : d <> 0 -> num_or x d <> 0.
Proof. intros Hd. unfold num_or. destruct (x =? 0) eqn:E; [exact Hd|apply N.eqb_neq; exact E]. Qed.

Lemma data_capture_form_data (jpeg : string) :
  snd (build_form_data (ImgString (data_uri "image/jpeg" (btoa jpeg))) [])
  = Ok [FileEntry "image" (bytes_of_string jpeg) "image/jpeg" "captured.jpg"].
Proof.
  rewrite build_form_data_data_uri by apply data_uri_prefix.
  rewrite base64ToBlob_btoa by reflexivity. reflexivity.
Qed.

(** X5.  A mobile capture draws the frame on a canvas of the video's
    size, or 640 x 480 where the video reports 0 (metadata not loaded),
    so the canvas always has pixels and [toDataURL] never returns the
    empty [data:,].  The capture is a JPEG data URI, and uploading it
    posts exactly the encoded JPEG bytes as [image/jpeg] named
    [captured.jpg] and resolves.  Without the video element or a 2D
    context nothing is captured. *)
Theorem MobileCamera_capturePhoto_upload (env : UploadEnv) (v : Video)
    (encode : N -> N -> string) :
  let width := num_or (videoWidth v) 640 in
  let height := num_or (videoHeight v) 480 in
  let img := ImgString (data_uri "image/jpeg" (btoa (encode width height))) in
  MobileCamera_capturePhoto (Some v) true encode = Some img
  /\ width <> 0 /\ height <> 0
  /\ snd (run_upload env img) = Ok tt
  /\ (exists rest, fst (run_upload env img) =
        EvPost (api_endpoint env)
          [FileEntry "image" (bytes_of_string (encode width height)) "image/jpeg" "captured.jpg"]
        :: rest /\ count_posts rest = 0%nat)
  /\ MobileCamera_capturePhoto None true encode = None
  /\ MobileCamera_capturePhoto (Some v) false encode = None.
Proof.
  intros width height img.
  assert (Hw : width <> 0) by (apply num_or_nonzero; discriminate).
  assert (Hh : height <> 0) by (apply num_or_nonzero; discriminate).
  destruct (run_upload_ok env img _ (data_capture_form_data (encode width height)))
    as (Hr & rest & Ht & Hc).
  split.
  - unfold MobileCamera_capturePhoto, toDataURL_jpeg. fold width height.
    apply N.eqb_neq in Hw, Hh. rewrite Hw, Hh. reflexivity.
  - repeat split; try assumption; [exists rest; split; assumption].
Qed.

(** X6.  On the desktop, "Capture Photo" does nothing (no preview, no
    upload, the webcam stays as it is) when the webcam is closed, when
    [getScreenshot()] returns [null], or when it returns the empty string
    (falsy). *)
Theorem DesktopCamera_capture_needs_image (env : UploadEnv) (showWebcam : bool)
    (imageSrc : option string) (p : Page) :
  showWebcam = false \/ imageSrc = None \/ imageSrc = Some EmptyString ->
  desktop_step env (DesktopCapture imageSrc) (showWebcam, p) = (showWebcam, p).
Proof.
  intros [ -> | [ -> | -> ] ]; simpl; [reflexivity|destruct showWebcam; reflexivity|].
  destruct showWebcam; reflexivity.
Qed.

Lemma DesktopCamera_capture_needs_image_witness :
  desktop_step (env_responding 200 (ok_body_text true) (Some (ok_body true)))
    (DesktopCapture (Some EmptyString)) (true, initial_page) = (true, initial_page).
Proof.
  apply DesktopCamera_capture_needs_image. right. right. reflexivity.
Defined.

(** X7.  A desktop webcam screenshot (a JPEG data URI) with the webcam
    open becomes the preview, is posted once as the decoded JPEG bytes
    named [captured.jpg], and leaves the webcam open. *)
Theorem DesktopCamera_capture_upload (env : UploadEnv) (jpeg : string) (p : Page) :
  let s := data_uri "image/jpeg" (btoa jpeg) in
  let st := desktop_step env (DesktopCapture (Some s)) (true, p) in
  fst st = true
  /\ screenshot (snd st) = Some s
  /\ exists rest, effects (snd st) =
       effects p ++ EvPost (api_endpoint env)
                      [FileEntry "image" (bytes_of_string jpeg) "image/jpeg" "captured.jpg"]
                    :: rest
       /\ count_posts rest = 0%nat.
Proof.
  intros s st.
  assert (Hs : js_truthy_string s = true).
  { unfold s, data_uri. reflexivity. }
  assert (E : st = (true, fire_upload env (ImgString s) (setScreenshot s p))).
  { unfold st, desktop_step, DesktopCamera_capturePhoto. rewrite Hs. reflexivity. }
  rewrite E. split; [reflexivity|]. split.
  - apply fire_upload_frame.
  - destruct (fire_upload_effects env (ImgString s) (setScreenshot s p)) as (t & Ht & Hm).
    pose proof (data_capture_form_data jpeg) as F. fold s in F. rewrite F in Hm.
    destruct Hm as (Hc & rest & ->).
    exists rest. simpl snd. rewrite Ht. split; [reflexivity|].
    simpl in Hc. injection Hc as Hc. exact Hc.
Qed.

(** X8.  The desktop file input, the mobile file input and a Blob
    capture agree: a chosen file is handled exactly as [handleCapture]
    handles a Blob (a new blob URL preview and its upload); no chosen
    file (the picker cancelled) leaves the page as it was. *)
Theorem file_inputs_agree (env : UploadEnv) (showWebcam : bool) (file : option Blob)
    (p : Page) :
  desktop_step env (DesktopFileChange file) (showWebcam, p)
    = (showWebcam, handleMobileFile env file p)
  /\ (forall f, handleMobileFile env (Some f) p = handleCapture env (ImgBlob f) p)
  /\ handleMobileFile env None p = p.
Proof.
  split; [destruct file; reflexivity|]. split; [intros f; reflexivity|reflexivity].
Qed.

(* ------------------------------------------------------------------ *)
(** ** Requests sent by the page *)

(** X9.  Every page event only appends to the page's effects, and sends
    at most one request: none for a commit or a cancelled file picker;
    for a capture or a chosen file, one POST of the FormData to the API
    endpoint when the FormData can be built, and otherwise no request and
    an unhandled promise rejection with [base64ToBlob]'s error (the
    handlers neither await nor catch the upload's promise). *)
Theorem page_step_uploads (ua : string) (ev : PageEvent) (p : Page) :
  exists t, effects (page_step ua ev p) = effects p ++ t
  /\ match event_upload ev with
     | None => t = []
     | Some (env, img) =>
         match snd (build_form_data img []) with
         | Ok fd => count_posts t = 1%nat
                    /\ exists rest, t = EvPost (api_endpoint env) fd :: rest
         | Throw e => t = [EvUnhandledRejection e]
         end
     end.
Proof.
  destruct ev as [|env [s|b]|env [f|]]; simpl.
  - exists []. rewrite app_nil_r. split; [|reflexivity].
    destruct (mount_effect_ran p); reflexivity.
  - exact (fire_upload_effects env (ImgString s) (setScreenshot s p)).
  - exact (fire_upload_effects env (ImgBlob b) _).
  - exact (fire_upload_effects env (ImgBlob f) _).
  - exists []. rewrite app_nil_r. split; reflexivity.
Qed.

(* ------------------------------------------------------------------ *)
(** ** The camera streams: list and stream lemmas *)

Lemma set_run_cons (k : nat) (x a : EffectRun) (l : list EffectRun) :
  set_run (S k) x (a :: l) = a :: set_run k x l.
Proof. reflexivity. Qed.

Lemma set_run_app_last (l : list EffectRun) (x r : EffectRun) :
  set_run (length l) x (l ++ [r]) = l ++ [x].
Proof.
  induction l as [|a l IH]; [reflexivity|]. simpl length. rewrite <- app_comm_cons.
  rewrite set_run_cons, IH. reflexivity.
Qed.

Lemma set_run_app_lt (k : nat) (x : EffectRun) (l1 l2 : list EffectRun) :
  (k < length l1)%nat -> set_run k x (l1 ++ l2) = set_run k x l1 ++ l2.
Proof.
  revert k; induction l1 as [|a l1 IH]; intros k Hk; simpl in Hk; [lia|].
  destruct k as [|k]; [reflexivity|].
  rewrite <- app_comm_cons, !set_run_cons, IH by lia. reflexivity.
Qed.

Lemma set_run_same (k : nat) (x : EffectRun) (l : list EffectRun) :
  nth_error l k = Some x -> set_run k x l = l.
Proof.
  revert k; induction l as [|a l IH]; intros k H; destruct k as [|k]; simpl in H;
    try discriminate.
  - injection H as ->. reflexivity.
  - rewrite set_run_cons, IH by assumption. reflexivity.
Qed.

Lemma Forall_set_run (P : EffectRun -> Prop) (k : nat) (x : EffectRun) (l : list EffectRun) :
  Forall P l -> P x -> Forall P (set_run k x l).
Proof.
  revert k; induction l as [|a l IH]; intros k Hl Hx.
  - destruct k; constructor; [exact Hx|constructor|exact Hx|constructor].
  - destruct k as [|k].
    + constructor; [exact Hx|]. inversion Hl; assumption.
    + rewrite set_run_cons. inversion Hl. constructor; [assumption|]. apply IH; assumption.
Qed.

Lemma nth_error_snoc_cases (l : list EffectRun) (r y : EffectRun) (k : nat) :
  nth_error (l ++ [r]) k = Some y ->
  ((k < length l)%nat /\ nth_error l k = Some y) \/ (k = length l /\ y = r).
Proof.
  intros H. destruct (Nat.lt_ge_cases k (length l)) as [Lt|Ge].
  - left. rewrite nth_error_app1 in H by assumption. split; assumption.
  - right. rewrite nth_error_app2 in H by assumption.
    destruct (k - length l)%nat as [|j] eqn:E; simpl in H.
    + injection H as <-. split; [lia|reflexivity].
    + destruct j; discriminate.
Qed.

Lemma stop_stream_length (sid : nat) (ss : list MediaStream) :
  length (stop_stream sid ss) = length ss.
Proof. unfold stop_stream. apply length_map. Qed.

Lemma stop_stream_ids (sid : nat) (ss : list MediaStream) :
  map stream_id (stop_stream sid ss) = map stream_id ss.
Proof.
  unfold stop_stream. rewrite map_map. apply map_ext. intros st.
  destruct (Nat.eqb (stream_id st) sid); reflexivity.
Qed.

Lemma stop_stream_live (sid : nat) (ss : list MediaStream) (st : MediaStream) :
  In st (stop_stream sid ss) -> live st = true -> In st ss /\ stream_id st <> sid.
Proof.
  unfold stop_stream. intros H Hl. apply in_map_iff in H as (st0 & <- & Hin).
  destruct (Nat.eqb (stream_id st0) sid) eqn:E; [discriminate|].
  apply Nat.eqb_neq in E. split; assumption.
Qed.

Lemma stop_stream_keeps (sid : nat) (ss : list MediaStream) (st : MediaStream) :
  In st ss -> stream_id st <> sid -> In st (stop_stream sid ss).
Proof.
  unfold stop_stream. intros H Hn. apply in_map_iff. exists st. split; [|exact H].
  apply Nat.eqb_neq in Hn. rewrite Hn. reflexivity.
Qed.

Lemma cleanup_last_snoc (c : Camera) (olds : list EffectRun) (r : EffectRun) :
  runs c = olds ++ [r] ->
  cleanup_last c =
  {| facingMode := facingMode c;
     runs := olds ++ [{| run_facing := run_facing r; activeStream := activeStream r;
                         settled := settled r; cleaned_up := true |}];
     streams := match activeStream r with
                | Some sid => stop_stream sid (streams c)
                | None => streams c
                end;
     stream_state := stream_state c; mounted := mounted c |}.
Proof. intros H. unfold cleanup_last. rewrite H, rev_unit, rev_involutive. reflexivity. Qed.

Lemma filter_live_le1 (l : list MediaStream) (k : nat) :
  NoDup (map stream_id l) -> (forall st, In st l -> live st = true -> stream_id st = k) ->
  (length (filter live l) <= 1)%nat.
Proof.
  induction l as [|a l IH]; intros Hd Hk; simpl; [lia|].
  inversion Hd as [|x xs Hx Hd']; subst.
  destruct (live a) eqn:La.
  - assert (E : filter live l = []).
    { destruct (filter live l) as [|b r] eqn:F; [reflexivity|exfalso].
      assert (Hb : In b (filter live l)) by (rewrite F; left; reflexivity).
      apply filter_In in Hb as [Hb Lb]. apply Hx.
      rewrite (Hk a (or_introl eq_refl) La), <- (Hk b (or_intror Hb) Lb).
      apply in_map. exact Hb. }
    rewrite E. simpl. lia.
  - apply IH; [assumption|]. intros st Hs Ls. apply Hk; [right|]; assumption.
Qed.

Lemma camera_run_cons (ev : CameraEvent) (evs : list CameraEvent) (c : Camera) :
  camera_run (ev :: evs) c = camera_run evs (camera_step ev c).
Proof. reflexivity. Qed.

Lemma settled_record (r : EffectRun) :
  settled r = true ->
  {| run_facing := run_facing r; activeStream := activeStream r; settled := true;
     cleaned_up := cleaned_up r |} = r.
Proof. destruct r; simpl; intros ->; reflexivity. Qed.

(* ------------------------------------------------------------------ *)
(** ** Requests that settle before the camera is switched *)

Lemma settled_inv_initial : camera_settled_inv camera_initial.
Proof.
  repeat split; simpl; try constructor.
  - exists []. split; [constructor|reflexivity].
  - intros st [].
Qed.

(** The only run not cleaned up is the latest one. *)
Lemma uncleaned_is_last (olds : list EffectRun) (r r0 : EffectRun) :
  Forall (fun r => cleaned_up r = true) olds ->
  In r0 (olds ++ [r]) -> cleaned_up r0 = false -> r0 = r.
Proof.
  intros Ho Hin Hc. apply in_app_or in Hin as [Hin|[<-|[]]]; [|reflexivity].
  rewrite Forall_forall in Ho. rewrite (Ho r0 Hin) in Hc. discriminate.
Qed.

Lemma uncleaned_not_old (olds : list EffectRun) (r0 : EffectRun) :
  Forall (fun r => cleaned_up r = true) olds -> In r0 olds -> cleaned_up r0 = false -> False.
Proof.
  intros Ho Hin Hc. rewrite Forall_forall in Ho. rewrite (Ho r0 Hin) in Hc. discriminate.
Qed.

Lemma cleanup_last_set_facing (f : FacingMode) (c : Camera) :
  cleanup_last (set_facing f c) = set_facing f (cleanup_last c).
Proof. unfold cleanup_last, set_facing. simpl. destruct (rev (runs c)); reflexivity. Qed.

(** Cleaning up the settled latest run of the mounted camera leaves no
    live stream. *)
Lemma settled_inv_cleanup (c : Camera) :
  camera_settled_inv c -> mounted c = true -> latest_pending c = false ->
  exists olds,
    runs (cleanup_last c) = olds
    /\ Forall (fun r => cleaned_up r = true) olds
    /\ Forall (fun r => settled r = false -> activeStream r = None) olds
    /\ Forall (fun r => cleaned_up r = true -> settled r = true) olds
    /\ map stream_id (streams (cleanup_last c)) = seq 0 (length (streams (cleanup_last c)))
    /\ (forall st, In st (streams (cleanup_last c)) -> live st = false)
    /\ facingMode (cleanup_last c) = facingMode c
    /\ mounted (cleanup_last c) = true.
Proof.
  intros (Hids & Hcs & Hsa & (olds & Ho & Hsh) & Hlive) Hm Hp.
  rewrite Hm in Hsh. destruct Hsh as (r & Hr & Hrc & Hrf).
  assert (Hset : settled r = true).
  { unfold latest_pending in Hp. rewrite Hr, rev_unit in Hp.
    apply negb_false_iff in Hp. exact Hp. }
  rewrite (cleanup_last_snoc c olds r Hr).
  set (rc := {| run_facing := run_facing r; activeStream := activeStream r;
                settled := settled r; cleaned_up := true |}).
  exists (olds ++ [rc]). simpl. rewrite Hr in Hcs, Hsa.
  apply Forall_app in Hcs as [Hco Hcr]. apply Forall_app in Hsa as [Hso Hsr].
  split; [reflexivity|]. split.
  { apply Forall_app. split; [exact Ho|constructor; [reflexivity|constructor]]. }
  split.
  { apply Forall_app. split; [exact Hso|constructor; [|constructor]].
    unfold rc; simpl. rewrite Hset. discriminate. }
  split.
  { apply Forall_app. split; [exact Hco|constructor; [|constructor]].
    intros _. exact Hset. }
  split.
  { destruct (activeStream r); rewrite ?stop_stream_ids, ?stop_stream_length; exact Hids. }
  split; [|split; [reflexivity|exact Hm]].
  intros st Hin. destruct (live st) eqn:Ls; [exfalso|reflexivity].
  assert (Hin0 : In st (streams c) /\ forall sid, activeStream r = Some sid -> stream_id st <> sid).
  { destruct (activeStream r) as [sid|] eqn:Ea.
    - destruct (stop_stream_live sid _ st Hin Ls) as [A B]. split; [exact A|].
      intros sid' E. injection E as <-. exact B.
    - split; [exact Hin|intros sid E; discriminate]. }
  destruct Hin0 as [Hin0 Hne].
  destruct (Hlive st Hin0 Ls) as (r0 & Hr0 & Hc0 & Ha0 & _).
  rewrite Hr in Hr0. rewrite (uncleaned_is_last olds r r0 Ho Hr0 Hc0) in Ha0.
  exact (Hne _ Ha0 eq_refl).
Qed.

Lemma settled_inv_step (ev : CameraEvent) (c : Camera) :
  camera_settled_inv c ->
  match ev with
  | CamToggle | CamUnmount => negb (mounted c && latest_pending c)
  | _ => true
  end = true ->
  camera_settled_inv (camera_step ev c).
Proof.
  intros Hinv Hev. destruct ev as [| | k | k |]; cbn [camera_step].
  - (* mount *)
    destruct (mounted c) eqn:Hm; [exact Hinv|].
    destruct Hinv as (Hids & Hcs & Hsa & (olds & Ho & Hsh) & Hlive).
    rewrite Hm in Hsh. unfold run_effect, camera_settled_inv; simpl.
    split; [exact Hids|]. split.
    { apply Forall_app. split; [exact Hcs|constructor; [discriminate|constructor]]. }
    split.
    { apply Forall_app. split; [exact Hsa|constructor; [reflexivity|constructor]]. }
    split.
    { exists olds. split; [exact Ho|]. eexists. rewrite Hsh. split; [reflexivity|].
      split; reflexivity. }
    intros st Hin Ls. exfalso.
    destruct (Hlive st Hin Ls) as (r0 & Hr0 & Hc0 & _). rewrite Hsh in Hr0.
    exact (uncleaned_not_old olds r0 Ho Hr0 Hc0).
  - (* toggle *)
    destruct (mounted c) eqn:Hm; [|exact Hinv].
    simpl in Hev. apply negb_true_iff in Hev.
    destruct (settled_inv_cleanup c Hinv Hm Hev)
      as (olds & Hr & Ho & Hsa & Hcs & Hids & Hdead & _ & Hm').
    rewrite cleanup_last_set_facing.
    unfold run_effect, set_facing, camera_settled_inv; simpl. rewrite Hr.
    split; [exact Hids|]. split.
    { apply Forall_app. split; [exact Hcs|constructor; [discriminate|constructor]]. }
    split.
    { apply Forall_app. split; [exact Hsa|constructor; [reflexivity|constructor]]. }
    split.
    { exists olds. split; [exact Ho|]. eexists. split; [reflexivity|]. split; reflexivity. }
    intros st Hin Ls. rewrite (Hdead st Hin) in Ls. discriminate.
  - (* grant *)
    unfold grant. destruct (nth_error (runs c) k) as [r0|] eqn:Hk; [|exact Hinv].
    destruct (settled r0) eqn:Hs0; [exact Hinv|].
    destruct Hinv as (Hids & Hcs & Hsa & (olds & Ho & Hsh) & Hlive).
    assert (Hc0 : cleaned_up r0 = false).
    { rewrite Forall_forall in Hcs. destruct (cleaned_up r0) eqn:E; [|reflexivity].
      rewrite (Hcs r0 (nth_error_In _ _ Hk) E) in Hs0. discriminate. }
    destruct (mounted c) eqn:Hm.
    2:{ exfalso. rewrite Hsh in Hk. exact (uncleaned_not_old olds r0 Ho (nth_error_In _ _ Hk) Hc0). }
    destruct Hsh as (r & Hr & Hrc & Hrf). rewrite Hr in Hk.
    destruct (nth_error_snoc_cases _ _ _ _ Hk) as [[Lt Hk']|[-> ->]].
    { exfalso. exact (uncleaned_not_old olds r0 Ho (nth_error_In _ _ Hk') Hc0). }
    assert (Har : activeStream r = None).
    { rewrite Forall_forall in Hsa. apply Hsa; [rewrite Hr; apply in_or_app; right; left; reflexivity|].
      exact Hs0. }
    rewrite Hr, set_run_app_last. unfold camera_settled_inv; simpl.
    split.
    { rewrite map_app, Hids, length_app, seq_app. reflexivity. }
    split.
    { rewrite Hr in Hcs. apply Forall_app in Hcs as [Hco _]. apply Forall_app.
      split; [exact Hco|constructor; [|constructor]]. simpl. rewrite Hrc. discriminate. }
    split.
    { rewrite Hr in Hsa. apply Forall_app in Hsa as [Hso _]. apply Forall_app.
      split; [exact Hso|constructor; [discriminate|constructor]]. }
    split.
    { exists olds. split; [exact Ho|]. eexists. split; [reflexivity|]. simpl.
      split; [exact Hrc|exact Hrf]. }
    intros st Hin Ls. apply in_app_or in Hin as [Hin|[<-|[]]].
    + exfalso. destruct (Hlive st Hin Ls) as (r1 & Hr1 & Hc1 & Ha1 & _).
      rewrite Hr in Hr1. rewrite (uncleaned_is_last olds r r1 Ho Hr1 Hc1), Har in Ha1.
      discriminate.
    + eexists. split; [apply in_or_app; right; left; reflexivity|]. simpl.
      split; [exact Hrc|]. split; reflexivity.
  - (* deny *)
    destruct c as [fm rs ss sst m]. unfold deny. cbn [runs] in *.
    destruct (nth_error rs k) as [r0|] eqn:Hk; [|exact Hinv].
    destruct Hinv as (Hids & Hcs & Hsa & (olds & Ho & Hsh) & Hlive). cbn in *.
    destruct (cleaned_up r0) eqn:Hc0.
    + rewrite Forall_forall in Hcs.
      pose proof (settled_record r0 (Hcs r0 (nth_error_In _ _ Hk) Hc0)) as E.
      rewrite Hc0 in E. rewrite E, (set_run_same k r0 rs Hk).
      split; [exact Hids|]. split; [rewrite Forall_forall; exact Hcs|].
      split; [exact Hsa|]. split; [exists olds; split; assumption|exact Hlive].
    + destruct m.
      2:{ exfalso. rewrite Hsh in Hk. exact (uncleaned_not_old olds r0 Ho (nth_error_In _ _ Hk) Hc0). }
      destruct Hsh as (r & Hr & Hrc & Hrf). rewrite Hr in Hk.
      destruct (nth_error_snoc_cases _ _ _ _ Hk) as [[Lt Hk']|[-> ->]].
      { exfalso. exact (uncleaned_not_old olds r0 Ho (nth_error_In _ _ Hk') Hc0). }
      rewrite Hr, set_run_app_last. unfold camera_settled_inv; cbn.
      split; [exact Hids|]. split.
      { rewrite Hr in Hcs. apply Forall_app in Hcs as [Hco _]. apply Forall_app.
        split; [exact Hco|constructor; [|constructor]]. simpl. discriminate. }
      split.
      { rewrite Hr in Hsa. apply Forall_app in Hsa as [Hso _]. apply Forall_app.
        split; [exact Hso|constructor; [discriminate|constructor]]. }
      split.
      { exists olds. split; [exact Ho|]. eexists. split; [reflexivity|]. simpl.
        split; [reflexivity|exact Hrf]. }
      intros st Hin Ls. destruct (Hlive st Hin Ls) as (r1 & Hr1 & Hc1 & Ha1 & Hf1).
      rewrite Hr in Hr1. rewrite (uncleaned_is_last olds r r1 Ho Hr1 Hc1) in Ha1, Hf1.
      eexists. split; [apply in_or_app; right; left; reflexivity|]. simpl.
      split; [reflexivity|]. split; assumption.
  - (* unmount *)
    destruct (mounted c) eqn:Hm; [|exact Hinv].
    simpl in Hev. apply negb_true_iff in Hev.
    destruct (settled_inv_cleanup c Hinv Hm Hev)
      as (olds & Hr & Ho & Hsa & Hcs & Hids & Hdead & _ & _).
    unfold camera_settled_inv; simpl.
    split; [exact Hids|]. split; [rewrite Hr; exact Hcs|]. split; [rewrite Hr; exact Hsa|].
    split; [exists olds; split; [exact Ho|exact Hr]|].
    intros st Hin Ls. rewrite (Hdead st Hin) in Ls. discriminate.
Qed.

Lemma settled_inv_run (evs : list CameraEvent) (c : Camera) :
  camera_settled_inv c -> switches_after_settle evs c = true ->
  camera_settled_inv (camera_run evs c).
Proof.
  revert c; induction evs as [|ev evs IH]; intros c Hinv H; [exact Hinv|].
  simpl in H. apply andb_prop in H as [H1 H2].
  rewrite camera_run_cons. apply IH; [|exact H2].
  apply settled_inv_step; [exact Hinv|]. destruct ev; exact H1 || reflexivity.
Qed.

(** X10.  When "Switch Camera" and unmounting only happen after the
    pending [getUserMedia] request has settled, at most one stream is
    ever live, it faces the current facing mode, and none is live once
    the camera is unmounted. *)
Theorem camera_single_live_stream_when_settled (evs : list CameraEvent) :
  switches_after_settle evs camera_initial = true ->
  (length (live_streams (camera_run evs camera_initial)) <= 1)%nat
  /\ forall st, In st (live_streams (camera_run evs camera_initial)) ->
       mounted (camera_run evs camera_initial) = true
       /\ stream_facing st = facingMode (camera_run evs camera_initial).
Proof.
  intros H.
  destruct (settled_inv_run evs camera_initial settled_inv_initial H)
    as (Hids & _ & _ & (olds & Ho & Hsh) & Hlive).
  set (c := camera_run evs camera_initial) in *.
  assert (Key : forall st, In st (streams c) -> live st = true ->
            mounted c = true /\ exists r, runs c = olds ++ [r]
            /\ activeStream r = Some (stream_id st) /\ stream_facing st = facingMode c).
  { intros st Hin Ls. destruct (Hlive st Hin Ls) as (r0 & Hr0 & Hc0 & Ha0 & Hf0).
    destruct (mounted c).
    - destruct Hsh as (r & Hr & Hrc & Hrf). rewrite Hr in Hr0.
      rewrite (uncleaned_is_last olds r r0 Ho Hr0 Hc0) in Ha0, Hf0.
      split; [reflexivity|]. exists r. split; [exact Hr|]. split; [exact Ha0|].
      rewrite Hf0. exact Hrf.
    - exfalso. rewrite Hsh in Hr0. exact (uncleaned_not_old olds r0 Ho Hr0 Hc0). }
  split.
  - destruct (mounted c) eqn:Hm.
    + destruct Hsh as (r & Hr & _ & _).
      destruct (activeStream r) as [sid|] eqn:Ea.
      * unfold live_streams. apply (filter_live_le1 _ sid).
        { rewrite Hids. apply seq_NoDup. }
        intros st Hin Ls. destruct (Key st Hin Ls) as (_ & r' & Hr' & Ha' & _).
        rewrite Hr in Hr'. apply app_inj_tail in Hr' as [_ <-]. rewrite Ea in Ha'.
        injection Ha' as ->. reflexivity.
      * unfold live_streams. apply (filter_live_le1 _ 0).
        { rewrite Hids. apply seq_NoDup. }
        intros st Hin Ls. exfalso. destruct (Key st Hin Ls) as (_ & r' & Hr' & Ha' & _).
        rewrite Hr in Hr'. apply app_inj_tail in Hr' as [_ <-]. rewrite Ea in Ha'.
        discriminate.
    + unfold live_streams. apply (filter_live_le1 _ 0).
      { rewrite Hids. apply seq_NoDup. }
      intros st Hin Ls. destruct (Key st Hin Ls) as [E _]. discriminate.
  - intros st Hin. unfold live_streams in Hin. apply filter_In in Hin as [Hin Ls].
    destruct (Key st Hin Ls) as (Hm & r & _ & _ & Hf). split; assumption.
Qed.

Lemma camera_single_live_stream_when_settled_witness :
  (length (live_streams (camera_run [CamMount; CamGrant 0; CamToggle; CamGrant 1]
                                    camera_initial)) <= 1)%nat
  /\ forall st, In st (live_streams (camera_run [CamMount; CamGrant 0; CamToggle; CamGrant 1]
                                                camera_initial)) ->
       mounted (camera_run [CamMount; CamGrant 0; CamToggle; CamGrant 1] camera_initial) = true
       /\ stream_facing st = facingMode (camera_run [CamMount; CamGrant 0; CamToggle; CamGrant 1]
                                                   camera_initial).
Proof.
  apply (camera_single_live_stream_when_settled [CamMount; CamGrant 0; CamToggle; CamGrant 1]).
  reflexivity.
Defined.

(* ------------------------------------------------------------------ *)
(** ** Streams granted after their effect run was cleaned up *)

Lemma set_run_last_uncleaned (rs olds : list EffectRun) (r r0 x : EffectRun) (k : nat) :
  rs = olds ++ [r] -> cleaned_up r = false -> nth_error rs k = Some r0 ->
  cleaned_up x = cleaned_up r0 ->
  exists olds' r', set_run k x rs = olds' ++ [r'] /\ cleaned_up r' = false.
Proof.
  intros -> Hc Hk Hx. destruct (nth_error_snoc_cases _ _ _ _ Hk) as [[Lt _]|[-> ->]].
  - exists (set_run k x olds), r. rewrite set_run_app_lt by exact Lt. split; [reflexivity|exact Hc].
  - exists olds, x. rewrite set_run_app_last. split; [reflexivity|]. rewrite Hx. exact Hc.
Qed.

Lemma last_uncleaned_step (ev : CameraEvent) (c : Camera) :
  last_uncleaned c -> last_uncleaned (camera_step ev c).
Proof.
  unfold last_uncleaned. intros H. destruct ev as [| | k | k |]; cbn [camera_step].
  - destruct (mounted c) eqn:Hm; [intros Hm'; apply H; congruence|].
    intros _. eexists _, _. split; reflexivity.
  - destruct (mounted c) eqn:Hm; [|intros Hm'; apply H; congruence].
    intros _. eexists _, _. split; reflexivity.
  - unfold grant. destruct (nth_error (runs c) k) as [r0|] eqn:Hk; [|exact H].
    destruct (settled r0); [exact H|]. simpl. intros Hm.
    destruct (H Hm) as (olds & r & Hr & Hc).
    eapply (set_run_last_uncleaned _ olds r r0 _ k Hr Hc Hk). reflexivity.
  - unfold deny. destruct (nth_error (runs c) k) as [r0|] eqn:Hk; [|exact H].
    simpl. intros Hm. destruct (H Hm) as (olds & r & Hr & Hc).
    eapply (set_run_last_uncleaned _ olds r r0 _ k Hr Hc Hk). reflexivity.
  - destruct (mounted c) eqn:Hm; [|intros Hm'; apply H; congruence]. intros E. discriminate.
Qed.

Lemma cleanup_last_streams_length (c : Camera) :
  length (streams (cleanup_last c)) = length (streams c).
Proof.
  unfold cleanup_last. destruct (rev (runs c)) as [|r older]; [reflexivity|].
  simpl. destruct (activeStream r); [apply stop_stream_length|reflexivity].
Qed.

Lemma streams_length_step (ev : CameraEvent) (c : Camera) :
  (length (streams c) <= length (streams (camera_step ev c)))%nat.
Proof.
  destruct ev as [| | k | k |]; cbn [camera_step].
  - destruct (mounted c); simpl; lia.
  - destruct (mounted c); [|lia]. unfold run_effect. simpl.
    rewrite cleanup_last_set_facing. unfold set_facing. simpl.
    rewrite cleanup_last_streams_length. lia.
  - unfold grant. destruct (nth_error (runs c) k); [|lia]. destruct (settled e); [lia|].
    simpl. rewrite length_app. lia.
  - unfold deny. destruct (nth_error (runs c) k); simpl; lia.
  - destruct (mounted c); [|lia]. simpl. rewrite cleanup_last_streams_length. lia.
Qed.

Lemma holds_granted_mono (n m : nat) (l : list EffectRun) :
  (n <= m)%nat -> Forall (holds_granted n) l -> Forall (holds_granted m) l.
Proof.
  intros Le H. revert H. apply Forall_impl. intros r.
  unfold holds_granted. destruct (activeStream r); [lia|tauto].
Qed.

Lemma reach_inv_initial : camera_reach_inv camera_initial.
Proof. split; [intros E; discriminate|constructor]. Qed.

Lemma reach_inv_step (ev : CameraEvent) (c : Camera) :
  camera_reach_inv c -> camera_reach_inv (camera_step ev c).
Proof.
  intros [H1 H2]. split; [exact (last_uncleaned_step ev c H1)|].
  destruct ev as [| | k | k |]; cbn [camera_step].
  - destruct (mounted c); [exact H2|]. simpl. apply Forall_app.
    split; [exact H2|constructor; [exact I|constructor]].
  - destruct (mounted c) eqn:Hm; [|exact H2].
    destruct (H1 ltac:(first [exact Hm | reflexivity])) as (olds & r & Hr & _).
    rewrite cleanup_last_set_facing, (cleanup_last_snoc c olds r Hr).
    unfold run_effect, set_facing. simpl.
    assert (Hl : length (match activeStream r with
                         | Some sid => stop_stream sid (streams c)
                         | None => streams c end) = length (streams c)).
    { destruct (activeStream r); [apply stop_stream_length|reflexivity]. }
    rewrite Hl. rewrite Hr in H2. apply Forall_app in H2 as [Ho Hr'].
    apply Forall_app. split; [|constructor; [exact I|constructor]].
    apply Forall_app. split; [exact Ho|]. inversion Hr' as [|x0 l0 Hx0 _]. constructor; [|constructor].
    exact Hx0.
  - unfold grant. destruct (nth_error (runs c) k) as [r0|]; [|exact H2].
    destruct (settled r0); [exact H2|]. simpl. rewrite length_app. simpl.
    apply Forall_set_run; [|unfold holds_granted; simpl; lia].
    apply (holds_granted_mono (length (streams c))); [lia|exact H2].
  - unfold deny. destruct (nth_error (runs c) k) as [r0|] eqn:Hk; [|exact H2]. simpl.
    apply Forall_set_run; [exact H2|]. rewrite Forall_forall in H2.
    exact (H2 r0 (nth_error_In _ _ Hk)).
  - destruct (mounted c) eqn:Hm; [|exact H2].
    destruct (H1 ltac:(first [exact Hm | reflexivity])) as (olds & r & Hr & _).
    rewrite (cleanup_last_snoc c olds r Hr). simpl.
    assert (Hl : length (match activeStream r with
                         | Some sid => stop_stream sid (streams c)
                         | None => streams c end) = length (streams c)).
    { destruct (activeStream r); [apply stop_stream_length|reflexivity]. }
    rewrite Hl. rewrite Hr in H2. apply Forall_app in H2 as [Ho Hr'].
    apply Forall_app. split; [exact Ho|]. inversion Hr' as [|x0 l0 Hx0 _]. constructor; [|constructor].
    exact Hx0.
Qed.

Lemma reach_inv_run (evs : list CameraEvent) (c : Camera) :
  camera_reach_inv c -> camera_reach_inv (camera_run evs c).
Proof.
  revert c; induction evs as [|ev evs IH]; intros c H; [exact H|].
  rewrite camera_run_cons. apply IH, reach_inv_step, H.
Qed.

(** The cleanup of the latest run keeps a stream no run to be cleaned
    up holds. *)
Lemma cleanup_keeps_orphan (c : Camera) (olds : list EffectRun) (r : EffectRun)
    (sid : nat) (st : MediaStream) :
  runs c = olds ++ [r] -> activeStream r <> Some sid -> stream_id st = sid ->
  In st (streams c) -> In st (streams (cleanup_last c)).
Proof.
  intros Hr Ha Hid Hin. rewrite (cleanup_last_snoc c olds r Hr). simpl.
  destruct (activeStream r) as [sid'|] eqn:E; [|exact Hin].
  apply stop_stream_keeps; [exact Hin|]. rewrite Hid. intros ->. apply Ha. reflexivity.
Qed.

Lemma orphan_inv_step (sid : nat) (f : FacingMode) (ev : CameraEvent) (c : Camera) :
  orphan_inv sid f c -> orphan_inv sid f (camera_step ev c).
Proof.
  intros (O1 & O2 & O3 & O4).
  split; [pose proof (streams_length_step ev c); lia|].
  split; [exact (last_uncleaned_step ev c O2)|].
  destruct ev as [| | k | k |]; cbn [camera_step].
  - destruct (mounted c); [split; assumption|]. simpl. split; [|exact O4].
    apply Forall_app. split; [exact O3|constructor; [intros _; discriminate|constructor]].
  - destruct (mounted c) eqn:Hm; [|split; assumption].
    destruct (O2 ltac:(first [exact Hm | reflexivity])) as (olds & r & Hr & Hc).
    assert (Ha : activeStream r <> Some sid).
    { rewrite Forall_forall in O3. apply O3; [rewrite Hr; apply in_or_app; right; left; reflexivity|exact Hc]. }
    rewrite cleanup_last_set_facing. unfold run_effect, set_facing. simpl. split.
    + rewrite (cleanup_last_snoc c olds r Hr). simpl. rewrite Hr in O3.
      apply Forall_app in O3 as [Ho _]. apply Forall_app.
      split; [|constructor; [intros _; discriminate|constructor]].
      apply Forall_app. split; [exact Ho|constructor; [intros E; discriminate|constructor]].
    + exact (cleanup_keeps_orphan c olds r sid {| stream_id := sid; stream_facing := f; live := true |} Hr Ha eq_refl O4).
  - unfold grant. destruct (nth_error (runs c) k) as [r0|]; [|split; assumption].
    destruct (settled r0); [split; assumption|]. simpl. split.
    + apply Forall_set_run; [exact O3|]. simpl. intros _ E. injection E as E. lia.
    + apply in_or_app. left. exact O4.
  - unfold deny. destruct (nth_error (runs c) k) as [r0|] eqn:Hk; [|split; assumption].
    simpl. split; [|exact O4].
    apply Forall_set_run; [exact O3|]. rewrite Forall_forall in O3.
    exact (O3 r0 (nth_error_In _ _ Hk)).
  - destruct (mounted c) eqn:Hm; [|split; assumption].
    destruct (O2 ltac:(first [exact Hm | reflexivity])) as (olds & r & Hr & Hc).
    assert (Ha : activeStream r <> Some sid).
    { rewrite Forall_forall in O3. apply O3; [rewrite Hr; apply in_or_app; right; left; reflexivity|exact Hc]. }
    simpl. split.
    + rewrite (cleanup_last_snoc c olds r Hr). simpl. rewrite Hr in O3.
      apply Forall_app in O3 as [Ho _]. apply Forall_app.
      split; [exact Ho|constructor; [intros E; discriminate|constructor]].
    + exact (cleanup_keeps_orphan c olds r sid {| stream_id := sid; stream_facing := f; live := true |} Hr Ha eq_refl O4).
Qed.

Lemma orphan_inv_run (sid : nat) (f : FacingMode) (evs : list CameraEvent) (c : Camera) :
  orphan_inv sid f c -> orphan_inv sid f (camera_run evs c).
Proof.
  revert c; induction evs as [|ev evs IH]; intros c H; [exact H|].
  rewrite camera_run_cons. apply IH, orphan_inv_step, H.
Qed.

(** X11.  A [getUserMedia] request that resolves after its effect run was
    cleaned up (by "Switch Camera" or unmounting) yields a live stream
    that no later event stops: it stays live whatever happens next,
    including further switches and unmounting. *)
Theorem camera_late_grant_never_stopped (evs1 evs2 : list CameraEvent) (k : nat)
    (r : EffectRun) :
  nth_error (runs (camera_run evs1 camera_initial)) k = Some r ->
  cleaned_up r = true -> settled r = false ->
  In {| stream_id := length (streams (camera_run evs1 camera_initial));
        stream_facing := run_facing r; live := true |}
     (live_streams (camera_run (CamGrant k :: evs2) (camera_run evs1 camera_initial))).
Proof.
  intros Hk Hc Hs.
  destruct (reach_inv_run evs1 camera_initial reach_inv_initial) as [R1 R2].
  set (c := camera_run evs1 camera_initial) in *.
  rewrite camera_run_cons.
  assert (Start : orphan_inv (length (streams c)) (run_facing r) (camera_step (CamGrant k) c)).
  { split; [pose proof (streams_length_step (CamGrant k) c); cbn [camera_step];
            unfold grant; rewrite Hk, Hs; simpl; rewrite length_app; simpl; lia|].
    split; [exact (last_uncleaned_step (CamGrant k) c R1)|].
    cbn [camera_step]. unfold grant. rewrite Hk, Hs. simpl. split.
    - apply Forall_set_run.
      + revert R2. apply Forall_impl. intros r0 H _ E. unfold holds_granted in H.
        rewrite E in H. lia.
      + simpl. rewrite Hc. discriminate.
    - apply in_or_app. right. left. reflexivity. }
  destruct (orphan_inv_run _ _ evs2 _ Start) as (_ & _ & _ & O4).
  unfold live_streams. apply filter_In. split; [exact O4|reflexivity].
Qed.

Lemma camera_late_grant_never_stopped_witness :
  In {| stream_id := length (streams (camera_run [CamMount; CamUnmount] camera_initial));
        stream_facing := Environment; live := true |}
     (live_streams (camera_run (CamGrant 0 :: [CamMount; CamToggle; CamGrant 1; CamUnmount])
                     (camera_run [CamMount; CamUnmount] camera_initial))).
Proof.
  apply (camera_late_grant_never_stopped [CamMount; CamUnmount]
           [CamMount; CamToggle; CamGrant 1; CamUnmount] 0
           {| run_facing := Environment; activeStream := None; settled := false;
              cleaned_up := true |}); reflexivity.
Defined.

(* ------------------------------------------------------------------ *)
(** ** The facing modes requested *)

Lemma alternate_S_snoc (f : FacingMode) (n : nat) :
  alternate f (S n) = alternate f n ++ [Nat.iter n toggleCamera f].
Proof.
  revert f; induction n as [|n IH]; intros f; [reflexivity|].
  change (alternate f (S (S n))) with (f :: alternate (toggleCamera f) (S n)).
  rewrite IH. simpl. rewrite <- Nat.iter_succ_r. reflexivity.
Qed.

Lemma set_run_map_facing (k : nat) (x y : EffectRun) (l : list EffectRun) :
  nth_error l k = Some y -> run_facing x = run_facing y ->
  map run_facing (set_run k x l) = map run_facing l.
Proof.
  revert k; induction l as [|a l IH]; intros k Hk Hx; destruct k as [|k]; simpl in Hk;
    try discriminate.
  - injection Hk as ->. simpl. rewrite Hx. reflexivity.
  - rewrite set_run_cons. simpl. rewrite (IH k Hk Hx). reflexivity.
Qed.

Lemma set_run_last_facing (rs olds : list EffectRun) (r r0 x : EffectRun) (k : nat) :
  rs = olds ++ [r] -> nth_error rs k = Some r0 -> run_facing x = run_facing r0 ->
  exists olds' r', set_run k x rs = olds' ++ [r'] /\ run_facing r' = run_facing r.
Proof.
  intros -> Hk Hx. destruct (nth_error_snoc_cases _ _ _ _ Hk) as [[Lt _]|[-> ->]].
  - exists (set_run k x olds), r. rewrite set_run_app_lt by exact Lt. split; reflexivity.
  - exists olds, x. rewrite set_run_app_last. split; [reflexivity|exact Hx].
Qed.

Lemma length_set_run_eq (k : nat) (x y : EffectRun) (l : list EffectRun) :
  nth_error l k = Some y -> length (set_run k x l) = length l.
Proof.
  revert k; induction l as [|a l IH]; intros k Hk; destruct k as [|k]; simpl in Hk;
    try discriminate; [reflexivity|].
  rewrite set_run_cons. simpl. rewrite (IH k Hk). reflexivity.
Qed.

Lemma facing_inv_step (ev : CameraEvent) (c : Camera) :
  ev <> CamUnmount -> facing_inv c -> facing_inv (camera_step ev c).
Proof.
  intros Hev Hinv. pose proof Hinv as (A1 & A2 & A3).
  destruct ev as [| | k | k |]; cbn [camera_step].
  - destruct (mounted c) eqn:Hm; [exact Hinv|].
    destruct (A2 eq_refl) as [Hr _]. unfold run_effect, facing_inv. simpl.
    rewrite Hr. split; [reflexivity|]. split; [discriminate|].
    intros _. exists []. eexists. split; reflexivity.
  - destruct (mounted c) eqn:Hm; [|exact Hinv].
    destruct (A3 eq_refl) as (olds & r & Hr & Hf).
    rewrite cleanup_last_set_facing, (cleanup_last_snoc c olds r Hr).
    unfold run_effect, set_facing, facing_inv. simpl.
    split; [|split; [discriminate|intros _; eexists _, _; split; reflexivity]].
    rewrite Hr, length_app in A1. simpl in A1. rewrite Nat.add_1_r, alternate_S_snoc in A1.
    rewrite map_app in A1. simpl in A1. apply app_inj_tail in A1 as [A1 Hl].
    rewrite !map_app, length_app, length_app. simpl.
    rewrite Nat.add_1_r, Nat.add_1_r, alternate_S_snoc, alternate_S_snoc, A1, <- Hf, Hl.
    reflexivity.
  - unfold grant. destruct (nth_error (runs c) k) as [r0|] eqn:Hk;
      [|split; [exact A1|split; assumption]].
    destruct (settled r0); [exact Hinv|].
    unfold facing_inv. simpl.
    rewrite (set_run_map_facing k _ r0 (runs c) Hk) by reflexivity.
    rewrite (length_set_run_eq k _ r0 (runs c) Hk).
    split; [exact A1|]. split.
    + intros Hm. destruct (A2 Hm) as [Hr _]. rewrite Hr in Hk. destruct k; discriminate.
    + intros Hm. destruct (A3 Hm) as (olds & r & Hr & Hf).
      destruct (set_run_last_facing _ olds r r0 {| run_facing := run_facing r0;
                 activeStream := Some (length (streams c)); settled := true;
                 cleaned_up := cleaned_up r0 |} k Hr Hk eq_refl) as (olds' & r' & E & F).
      exists olds', r'. split; [exact E|]. rewrite F. exact Hf.
  - unfold deny. destruct (nth_error (runs c) k) as [r0|] eqn:Hk;
      [|split; [exact A1|split; assumption]].
    unfold facing_inv. simpl.
    rewrite (set_run_map_facing k _ r0 (runs c) Hk) by reflexivity.
    rewrite (length_set_run_eq k _ r0 (runs c) Hk).
    split; [exact A1|]. split.
    + intros Hm. destruct (A2 Hm) as [Hr _]. rewrite Hr in Hk. destruct k; discriminate.
    + intros Hm. destruct (A3 Hm) as (olds & r & Hr & Hf).
      destruct (set_run_last_facing _ olds r r0 {| run_facing := run_facing r0;
                 activeStream := activeStream r0; settled := true;
                 cleaned_up := cleaned_up r0 |} k Hr Hk eq_refl) as (olds' & r' & E & F).
      exists olds', r'. split; [exact E|]. rewrite F. exact Hf.
  - exfalso. apply Hev. reflexivity.
Qed.

Lemma facing_inv_run (evs : list CameraEvent) (c : Camera) :
  Forall (fun ev => ev <> CamUnmount) evs -> facing_inv c -> facing_inv (camera_run evs c).
Proof.
  revert c; induction evs as [|ev evs IH]; intros c Hevs H; [exact H|].
  inversion Hevs as [|x xs Hx Hxs]; subst.
  rewrite camera_run_cons. apply IH; [exact Hxs|]. apply facing_inv_step; assumption.
Qed.

(** X12.  While the camera stays mounted, its [getUserMedia] requests
    ask for alternating facing modes, [environment] first: the first
    "Switch Camera" requests [user], the next [environment], and so on,
    however the requests resolve; the latest request always asks for
    the current facing mode. *)
Theorem camera_requests_alternate (evs : list CameraEvent) :
  Forall (fun ev => ev <> CamUnmount) evs ->
  map run_facing (runs (camera_run evs camera_initial))
    = alternate Environment (length (runs (camera_run evs camera_initial)))
  /\ forall olds r, runs (camera_run evs camera_initial) = olds ++ [r] ->
       run_facing r = facingMode (camera_run evs camera_initial).
Proof.
  intros H.
  assert (I0 : facing_inv camera_initial).
  { split; [reflexivity|]. split; [intros _; split; reflexivity|intros E; discriminate]. }
  destruct (facing_inv_run evs camera_initial H I0) as (A1 & A2 & A3).
  split; [exact A1|]. intros olds r Hr.
  destruct (mounted (camera_run evs camera_initial)) eqn:Hm.
  - destruct (A3 eq_refl) as (olds' & r' & Hr' & Hf). rewrite Hr in Hr'.
    apply app_inj_tail in Hr' as [_ ->]. exact Hf.
  - destruct (A2 eq_refl) as [E _]. rewrite Hr in E. destruct olds; discriminate.
Qed.

Lemma camera_requests_alternate_witness :
  map run_facing (runs (camera_run [CamMount; CamToggle; CamGrant 1; CamToggle] camera_initial))
    = alternate Environment
        (length (runs (camera_run [CamMount; CamToggle; CamGrant 1; CamToggle] camera_initial)))
  /\ forall olds r,
       runs (camera_run [CamMount; CamToggle; CamGrant 1; CamToggle] camera_initial) = olds ++ [r] ->
       run_facing r = facingMode (camera_run [CamMount; CamToggle; CamGrant 1; CamToggle]
                                              camera_initial).
Proof.
  apply camera_requests_alternate. repeat constructor; discriminate.
Defined.
